(** * Financial statement analysis: a shallow embedding of [main.py]

    The development follows the layout of the program:
    - [Py]     : the Python run-time notions the program relies on
                 (exceptions, computations that return or raise);
    - [Digits] : the decimal digits of an integer ([str] and [int]);
    - [Dec]    : the [decimal.Decimal] numbers of the standard library, under
                 the default context, which the program never changes
                 (28 digits, ROUND_HALF_EVEN, exponents within
                 [-999999, 999999], traps on InvalidOperation,
                 DivisionByZero and Overflow);
    - [Text]   : [Decimal(str)], [Decimal.__str__] and [Decimal.__format__];
    - [Re]     : the fragment of [re] that the program's pattern uses;
    - the program itself: [safe_decimal], [Row], [Table], the registry
      [ADDITIONAL_ROWS], [format_decimal], [write_text_report],
      [analyse_file];
    - the properties of the specification.

    Text is modelled as ASCII [string]s. *)

From Stdlib Require Import ZArith NArith Ascii String List Lia Bool.
From stdpp Require Import base option gmap strings list.

Local Open Scope Z_scope.

(* ===================================================================== *)
(** ** Python run-time notions *)
(* ===================================================================== *)

Module Py.

(** The exceptions the program can meet.  All of them derive from
    [Exception]; the three decimal signals are the ones trapped by the
    default context. *)
Inductive exn : Type :=
| TypeError
| AttributeError
| IndexError
| InvalidOperation
| DivisionByZero
| Overflow.

(** A computation either returns or raises. *)
Inductive result (A : Type) : Type :=
| Ok (a : A)
| Raise (e : exn).
Arguments Ok {A} a.
Arguments Raise {A} e.

Definition bind {A B} (m : result A) (k : A -> result B) : result B :=
  match m with
  | Ok a => k a
  | Raise e => Raise e
  end.

End Py.

Export Py.

#[global] Instance result_fmap : FMap result :=
  fun _ _ f m => Py.bind m (fun a => Ok (f a)).

Notation "x <- m ;; k" := (Py.bind m (fun x => k))
  (at level 100, m at next level, right associativity).

#[global] Instance exn_eq_dec : EqDecision exn.
Proof. solve_decision. Defined.

(* ===================================================================== *)
(** ** Decimal digits of a natural number *)
(* ===================================================================== *)

Module Digits.

Local Open Scope N_scope.

Definition digit_char (d : N) : ascii := ascii_of_N (48 + d).

Definition is_digit (c : ascii) : bool :=
  (48 <=? N_of_ascii c) && (N_of_ascii c <=? 57).

Definition digit_val (c : ascii) : N := N_of_ascii c - 48.

(** [str(n)] for a non-negative integer: most significant digit first. *)
Fixpoint digits_aux (fuel : nat) (n : N) (acc : list ascii) : list ascii :=
  match fuel with
  | O => acc
  | S f =>
      let acc' := digit_char (n mod 10) :: acc in
      if n <? 10 then acc' else digits_aux f (n / 10) acc'
  end.

Definition digits_of (n : N) : list ascii :=
  digits_aux (S (N.to_nat (N.log2 n))) n [].

(** [int(s)] for a string of digits. *)
Definition of_digits (l : list ascii) : N :=
  fold_left (fun a c => a * 10 + digit_val c) l 0.

(** [len(str(n))] *)
Definition ndigits (n : N) : N := N.of_nat (length (digits_of n)).

End Digits.

Export Digits.

(* ===================================================================== *)
(** ** [decimal.Decimal] under the default context *)
(* ===================================================================== *)

Module Dec.

(** A decimal is a finite number [(-1)^sign * int * 10^exp], an infinity,
    or a NaN (quiet or signalling, with a diagnostic payload). *)
Inductive Decimal : Type :=
| Fin (sign : bool) (int : N) (exp : Z)
| Inf (sign : bool)
| NaN (sign : bool) (signalling : bool) (payload : N).

(** The default context. *)
Definition prec : Z := 28.
Definition Emax : Z := 999999.
Definition Emin : Z := -999999.
Definition Etiny : Z := Emin - prec + 1.
Definition Etop : Z := Emax - prec + 1.

Definition is_nan (d : Decimal) : bool :=
  match d with NaN _ _ _ => true | _ => false end.

(** [Decimal.__bool__]: special values and non-zero numbers are true. *)
Definition dec_bool (d : Decimal) : bool :=
  match d with
  | Fin _ c _ => negb (c =? 0)%N
  | _ => true
  end.

Definition copy_negate (d : Decimal) : Decimal :=
  match d with
  | Fin s c e => Fin (negb s) c e
  | Inf s => Inf (negb s)
  | NaN s g p => NaN (negb s) g p
  end.

Definition copy_abs (d : Decimal) : Decimal :=
  match d with
  | Fin _ c e => Fin false c e
  | Inf _ => Inf false
  | NaN _ g p => NaN false g p
  end.

(** Drop the [k] low digits of [c], rounding half to even. *)
Definition round_half_even (c : N) (k : N) : N :=
  let p := (10 ^ k)%N in
  let q := (c / p)%N in
  let r := (c mod p)%N in
  match (2 * r ?= p)%N with
  | Gt => (q + 1)%N
  | Eq => if N.odd q then (q + 1)%N else q
  | Lt => q
  end.

(** A NaN keeps at most [prec] payload digits (the low ones). *)
Definition fix_nan (d : Decimal) : Decimal :=
  match d with
  | NaN s g p => NaN s g (p mod 10 ^ Z.to_N prec)%N
  | _ => d
  end.

(** [Decimal._fix]: round to the context.  Overflow is trapped; rounding,
    inexactness, subnormals and underflow only set flags. *)
Definition dec_fix (d : Decimal) : result Decimal :=
  match d with
  | NaN _ _ _ => Ok (fix_nan d)
  | Inf _ => Ok d
  | Fin s c e =>
      if (c =? 0)%N then Ok (Fin s 0 (Z.min (Z.max e Etiny) Emax))
      else
        let exp_min := Z.of_N (ndigits c) + e - prec in
        if Etop <? exp_min then Raise Overflow
        else
          let exp_min := Z.max exp_min Etiny in
          if e <? exp_min then
            let c1 := round_half_even c (Z.to_N (exp_min - e)) in
            let '(c2, e2) :=
              if prec <? Z.of_N (ndigits c1)
              then ((c1 / 10)%N, exp_min + 1)
              else (c1, exp_min) in
            if Etop <? e2 then Raise Overflow else Ok (Fin s c2 e2)
          else Ok d
  end.

(** [Decimal._check_nans]: a signalling NaN operand raises, a quiet one is
    the result. *)
Definition check_nans (a b : Decimal) : option (result Decimal) :=
  match a, b with
  | NaN _ true _, _ => Some (Raise InvalidOperation)
  | _, NaN _ true _ => Some (Raise InvalidOperation)
  | NaN _ false _, _ => Some (Ok (fix_nan a))
  | _, NaN _ false _ => Some (Ok (fix_nan b))
  | _, _ => None
  end.

Definition signed (s : bool) (c : N) : Z :=
  if s then - Z.of_N c else Z.of_N c.

(** [Decimal.__add__]: the exact sum at the smaller exponent, then rounded. *)
Definition dec_add (a b : Decimal) : result Decimal :=
  match check_nans a b with
  | Some r => r
  | None =>
      match a, b with
      | Inf s1, Inf s2 => if Bool.eqb s1 s2 then Ok a else Raise InvalidOperation
      | Inf _, _ => Ok a
      | _, Inf _ => Ok b
      | Fin s1 c1 e1, Fin s2 c2 e2 =>
          let e := Z.min e1 e2 in
          let v := signed s1 c1 * 10 ^ (e1 - e) + signed s2 c2 * 10 ^ (e2 - e) in
          if (c1 =? 0)%N && (c2 =? 0)%N then dec_fix (Fin (s1 && s2) 0 e)
          else if v =? 0 then dec_fix (Fin false 0 e)
          else dec_fix (Fin (v <? 0) (Z.to_N (Z.abs v)) e)
      | _, _ => Ok a
      end
  end.

(** [Decimal.__sub__] *)
Definition dec_sub (a b : Decimal) : result Decimal :=
  match check_nans a b with
  | Some r => r
  | None => dec_add a (copy_negate b)
  end.

(** [Decimal.__mul__] *)
Definition dec_mul (a b : Decimal) : result Decimal :=
  match check_nans a b with
  | Some r => r
  | None =>
      match a, b with
      | Inf s1, Inf s2 => Ok (Inf (xorb s1 s2))
      | Inf s1, Fin s2 c2 _ =>
          if (c2 =? 0)%N then Raise InvalidOperation else Ok (Inf (xorb s1 s2))
      | Fin s1 c1 _, Inf s2 =>
          if (c1 =? 0)%N then Raise InvalidOperation else Ok (Inf (xorb s1 s2))
      | Fin s1 c1 e1, Fin s2 c2 e2 => dec_fix (Fin (xorb s1 s2) (c1 * c2)%N (e1 + e2))
      | _, _ => Ok a
      end
  end.

(** The loop of [__truediv__] that brings an exact quotient as close to the
    ideal exponent as possible. *)
Fixpoint strip_zeros (fuel : nat) (coeff : N) (exp ideal : Z) : N * Z :=
  match fuel with
  | O => (coeff, exp)
  | S f =>
      if (exp <? ideal) && (coeff mod 10 =? 0)%N
      then strip_zeros f (coeff / 10)%N (exp + 1) ideal
      else (coeff, exp)
  end.

(** [Decimal.__truediv__] *)
Definition dec_div (a b : Decimal) : result Decimal :=
  match check_nans a b with
  | Some r => r
  | None =>
      match a, b with
      | Inf _, Inf _ => Raise InvalidOperation
      | Inf s1, Fin s2 _ _ => Ok (Inf (xorb s1 s2))
      | Fin s1 _ _, Inf s2 => Ok (Fin (xorb s1 s2) 0 Etiny)
      | Fin s1 c1 e1, Fin s2 c2 e2 =>
          let sign := xorb s1 s2 in
          if (c2 =? 0)%N then
            if (c1 =? 0)%N then Raise InvalidOperation else Raise DivisionByZero
          else if (c1 =? 0)%N then dec_fix (Fin sign 0 (e1 - e2))
          else
            let shift := Z.of_N (ndigits c2) - Z.of_N (ndigits c1) + prec + 1 in
            let exp := e1 - e2 - shift in
            let '(coeff, remainder) :=
              if 0 <=? shift
              then N.div_eucl (c1 * 10 ^ Z.to_N shift) c2
              else N.div_eucl c1 (c2 * 10 ^ Z.to_N (- shift)) in
            let '(coeff, exp) :=
              if (remainder =? 0)%N
              then strip_zeros (Z.to_nat (e1 - e2 - exp)) coeff exp (e1 - e2)
              else ((if (coeff mod 5 =? 0)%N then coeff + 1 else coeff)%N, exp) in
            dec_fix (Fin sign coeff exp)
      | _, _ => Ok a
      end
  end.

(** [Decimal._cmp] on numbers and infinities. *)
Definition inf_rank (d : Decimal) : Z :=
  match d with
  | Inf false => 1
  | Inf true => -1
  | _ => 0
  end.

Definition dec_cmp (a b : Decimal) : comparison :=
  match a, b with
  | Fin s1 c1 e1, Fin s2 c2 e2 =>
      let e := Z.min e1 e2 in
      (signed s1 c1 * 10 ^ (e1 - e) ?= signed s2 c2 * 10 ^ (e2 - e))
  | _, _ => (inf_rank a ?= inf_rank b)
  end.

(** The integer constants the program compares with. *)
Definition of_int (z : Z) : Decimal := Fin (z <? 0) (Z.to_N (Z.abs z)) 0.

(** [a == b]: a signalling NaN raises, a quiet NaN is unequal to everything. *)
Definition dec_eq (a b : Decimal) : result bool :=
  match check_nans a b with
  | Some (Raise e) => Raise e
  | Some (Ok _) => Ok false
  | None => Ok (match dec_cmp a b with Eq => true | _ => false end)
  end.

(** [a != b] *)
Definition dec_ne (a b : Decimal) : result bool :=
  negb <$> dec_eq a b.

(** [a >= b] and [a > b]: ordering a NaN of either kind raises. *)
Definition dec_ge (a b : Decimal) : result bool :=
  if is_nan a || is_nan b then Raise InvalidOperation
  else Ok (match dec_cmp a b with Lt => false | _ => true end).

Definition dec_gt (a b : Decimal) : result bool :=
  if is_nan a || is_nan b then Raise InvalidOperation
  else Ok (match dec_cmp a b with Gt => true | _ => false end).

(** [abs(a)]: the sign is cleared and the result rounded to the context. *)
Definition dec_abs (a : Decimal) : result Decimal :=
  match a with
  | NaN _ true _ => Raise InvalidOperation
  | NaN _ false _ => Ok (fix_nan a)
  | _ => dec_fix (copy_abs a)
  end.

End Dec.

Export Dec.

(* ===================================================================== *)
(** ** Text: the [str] methods and the constructor [Decimal(str)] *)
(* ===================================================================== *)

Module Text.

Local Open Scope char_scope.

Definition chars (s : string) : list ascii := list_ascii_of_string s.
Definition text (l : list ascii) : string := string_of_list_ascii l.

(** [str.isspace] on ASCII: TAB..CR, FS..US and the space. *)
Definition is_space (c : ascii) : bool :=
  let n := N_of_ascii c in
  ((9 <=? n) && (n <=? 13) || (28 <=? n) && (n <=? 32))%N.

Fixpoint lstrip (l : list ascii) : list ascii :=
  match l with
  | c :: l' => if is_space c then lstrip l' else l
  | [] => []
  end.

(** [str.strip()] *)
Definition strip (l : list ascii) : list ascii :=
  rev (lstrip (rev (lstrip l))).

Definition lower_char (c : ascii) : ascii :=
  let n := N_of_ascii c in
  if ((65 <=? n) && (n <=? 90))%N then ascii_of_N (n + 32) else c.

(** [str.lower()] *)
Definition lower (l : list ascii) : list ascii := map lower_char l.

(** [str.replace(a, b)] for single characters [a]. *)
Definition replace_char (a : ascii) (b : list ascii) (l : list ascii)
  : list ascii :=
  flat_map (fun c => if Ascii.eqb c a then b else [c]) l.

Fixpoint span_digits (l : list ascii) : list ascii * list ascii :=
  match l with
  | c :: l' =>
      if is_digit c
      then let '(d, r) := span_digits l' in (c :: d, r)
      else ([], l)
  | [] => ([], [])
  end.

Definition parse_sign (l : list ascii) : bool * list ascii :=
  match l with
  | "-" :: r => (true, r)
  | "+" :: r => (false, r)
  | _ => (false, l)
  end.

(** The optional exponent [E[+-]digits] that must end the text. *)
Definition parse_exp (l : list ascii) : option Z :=
  match l with
  | [] => Some 0%Z
  | "e" :: r =>
      let '(s, r1) := parse_sign r in
      let '(d, r2) := span_digits r1 in
      match d, r2 with
      | _ :: _, [] => Some (signed s (of_digits d))
      | _, _ => None
      end
  | _ => None
  end.

(** A number: digits with an optional fraction (at least one digit in all)
    and an optional exponent.  The result is the coefficient and exponent. *)
Definition parse_number (l : list ascii) : option (N * Z) :=
  let '(ip, r) := span_digits l in
  let '(fp, r1) :=
    match r with
    | "." :: r' => span_digits r'
    | _ => ([], r)
    end in
  match ip ++ fp with
  | [] => None
  | ds =>
      match parse_exp r1 with
      | Some e => Some (of_digits ds, (e - Z.of_nat (length fp))%Z)
      | None => None
      end
  end.

(** [Inf], [Infinity], [NaN] and [sNaN] with an optional payload. *)
Definition parse_special (s : bool) (l : list ascii) : option Decimal :=
  if bool_decide (l = chars "inf") || bool_decide (l = chars "infinity")
  then Some (Inf s)
  else
    let '(g, r) := match l with "s" :: r => (true, r) | _ => (false, l) end in
    match r with
    | "n" :: "a" :: "n" :: r' =>
        let '(d, r2) := span_digits r' in
        match r2 with
        | [] => Some (NaN s g (of_digits d))
        | _ => None
        end
    | _ => None
    end.

(** [Decimal(s)] for a string [s]: surrounding white space and underscores
    are dropped, the syntax is case-insensitive, the conversion is exact.
    [None] stands for the [InvalidOperation] raised on malformed text. *)
Definition Decimal_of_chars (l : list ascii) : option Decimal :=
  let l := lower (replace_char "_" [] (strip l)) in
  let '(s, r) := parse_sign l in
  match parse_number r with
  | Some (c, e) => Some (Fin s c e)
  | None => parse_special s r
  end.

Definition Decimal_of_string (s : string) : option Decimal :=
  Decimal_of_chars (chars s).

Definition sign_chars (s : bool) : list ascii := if s then ["-"] else [].

(** [Decimal.__str__]: scientific notation of the specification. *)
Definition Decimal_chars (d : Decimal) : list ascii :=
  match d with
  | Inf s => sign_chars s ++ chars "Infinity"
  | NaN s g p =>
      sign_chars s ++ chars (if g then "sNaN" else "NaN")
        ++ (if (p =? 0)%N then [] else digits_of p)
  | Fin s c e =>
      let int := digits_of c in
      let len := Z.of_nat (length int) in
      let leftdigits := (e + len)%Z in
      let dotplace :=
        if ((e <=? 0) && (-6 <? leftdigits))%Z then leftdigits else 1%Z in
      let '(intpart, fracpart) :=
        if (dotplace <=? 0)%Z
        then (["0"], "." :: repeat "0" (Z.to_nat (- dotplace)) ++ int)
        else if (len <=? dotplace)%Z
        then (int ++ repeat "0" (Z.to_nat (dotplace - len)), [])
        else (take (Z.to_nat dotplace) int,
              "." :: drop (Z.to_nat dotplace) int) in
      let exp :=
        if (leftdigits =? dotplace)%Z then []
        else "E" :: (if (0 <=? leftdigits - dotplace)%Z then "+" else "-")
               :: digits_of (Z.to_N (Z.abs (leftdigits - dotplace))) in
      sign_chars s ++ intpart ++ fracpart ++ exp
  end.

Definition Decimal_str (d : Decimal) : string := text (Decimal_chars d).

(** Digit grouping by threes, from the right. *)
Fixpoint group3_rev (l : list ascii) : list ascii :=
  match l with
  | a :: b :: c :: ((_ :: _) as r) => a :: b :: c :: "," :: group3_rev r
  | _ => l
  end.

Definition insert_thousands_sep (digits : list ascii) : list ascii :=
  rev (group3_rev (rev digits)).

(** Coefficient of [Decimal._rescale(-2, ROUND_HALF_EVEN)]. *)
Definition rescale2 (c : N) (e : Z) : N :=
  if (c =? 0)%N then 0%N
  else if (-2 <=? e)%Z then (c * 10 ^ Z.to_N (e + 2))%N
  else round_half_even c (Z.to_N (-2 - e)).

(** [Decimal.__format__] for the three specifications the program uses:
    [".2%"] ([percent]), [",.2f"] ([commas]) and [".2f"]. *)
Definition Decimal_format (d : Decimal) (percent commas : bool)
  : list ascii :=
  let suffix := if percent then ["%"] else [] in
  match d with
  | Fin s c e =>
      let q := rescale2 c (if percent then e + 2 else e)%Z in
      let int := digits_of q in
      let len := length int in
      let '(intpart, fracpart) :=
        if (len <? 2)%nat then (["0"], repeat "0" (2 - len) ++ int)
        else (match take (len - 2) int with [] => ["0"] | ip => ip end,
              drop (len - 2) int) in
      let intpart := if commas then insert_thousands_sep intpart else intpart in
      sign_chars s ++ intpart ++ "." :: fracpart ++ suffix
  | _ => sign_chars (match d with Inf s | NaN s _ _ => s | _ => false end)
           ++ Decimal_chars (copy_abs d) ++ suffix
  end.

(** [str(n)] for an integer. *)
Definition int_str (z : Z) : string :=
  text (sign_chars (z <? 0)%Z ++ digits_of (Z.to_N (Z.abs z))).

End Text.

Export Text.

(* ===================================================================== *)
(** ** Regular expressions: the fragment of [re] that [tail_dot_rgx] uses *)
(* ===================================================================== *)

Module Re.

Local Open Scope char_scope.

(** Patterns.  Repetition is over character classes only, which is all the
    program's pattern has. *)
Inductive regex : Type :=
| Class (p : ascii -> bool)        (* one character of a class *)
| Cat (r1 r2 : regex)              (* r1 r2 *)
| Alt (r1 r2 : regex)              (* r1|r2, left first *)
| LazyStar (p : ascii -> bool)     (* p*? *)
| Plus (p : ascii -> bool)         (* p+, greedy *)
| Group (i : nat) (r : regex)      (* capturing group number i *)
| Ahead (r : regex)                (* (?=r) *)
| WordBoundary.                    (* \b *)

(** Captured groups, most recent binding first. *)
Definition captures : Type := list (nat * list ascii).

Fixpoint capture (i : nat) (c : captures) : option (list ascii) :=
  match c with
  | (j, s) :: c' => if Nat.eqb i j then Some s else capture i c'
  | [] => None
  end.

(** A position inside an attempted match: the character before the start of
    the attempt, the characters consumed so far (last one first) and the
    rest of the subject. *)
Record pos : Type := Pos {
  before : option ascii;
  consumed : list ascii;
  rest : list ascii;
  caps : captures
}.

Definition prev_char (p : pos) : option ascii :=
  match consumed p with
  | c :: _ => Some c
  | [] => before p
  end.

Definition next_char (p : pos) : option ascii :=
  match rest p with
  | c :: _ => Some c
  | [] => None
  end.

Definition is_word (c : ascii) : bool :=
  let n := N_of_ascii c in
  (is_digit c || (65 <=? n) && (n <=? 90) || (97 <=? n) && (n <=? 122)
   || (n =? 95))%N.

Definition is_word_at (o : option ascii) : bool :=
  match o with Some c => is_word c | None => false end.

(** [p*?] then [k]: as few characters as possible. *)
Fixpoint lazy_star {R} (p : ascii -> bool) (b : option ascii)
    (cons : list ascii) (cs : captures) (k : pos -> option R)
    (l : list ascii) : option R :=
  match k (Pos b cons l cs) with
  | Some r => Some r
  | None =>
      match l with
      | c :: l' => if p c then lazy_star p b (c :: cons) cs k l' else None
      | [] => None
      end
  end.

(** [p*] then [k]: as many characters as possible, giving back one at a time. *)
Fixpoint greedy_star {R} (p : ascii -> bool) (b : option ascii)
    (cons : list ascii) (cs : captures) (k : pos -> option R)
    (l : list ascii) : option R :=
  match l with
  | c :: l' =>
      if p c then
        match greedy_star p b (c :: cons) cs k l' with
        | Some r => Some r
        | None => k (Pos b cons l cs)
        end
      else k (Pos b cons l cs)
  | [] => k (Pos b cons l cs)
  end.

(** Backtracking matcher in continuation-passing style: [rmatch r p k] is
    the first way, in the engine's priority order, to match [r] at [p] such
    that the continuation [k] succeeds on what follows. *)
Fixpoint rmatch (r : regex) {R : Type} (p : pos) (k : pos -> option R)
  : option R :=
  match r with
  | Class cl =>
      match rest p with
      | c :: l' =>
          if cl c then k (Pos (before p) (c :: consumed p) l' (caps p))
          else None
      | [] => None
      end
  | Cat r1 r2 => rmatch r1 p (fun p1 => rmatch r2 p1 k)
  | Alt r1 r2 =>
      match rmatch r1 p k with
      | Some x => Some x
      | None => rmatch r2 p k
      end
  | LazyStar cl => lazy_star cl (before p) (consumed p) (caps p) k (rest p)
  | Plus cl =>
      match rest p with
      | c :: l' =>
          if cl c
          then greedy_star cl (before p) (c :: consumed p) (caps p) k l'
          else None
      | [] => None
      end
  | Group i r1 =>
      let start := length (consumed p) in
      rmatch r1 p (fun p1 =>
        let s := rev (take (length (consumed p1) - start) (consumed p1)) in
        k (Pos (before p1) (consumed p1) (rest p1) ((i, s) :: caps p1)))
  | Ahead r1 =>
      match rmatch r1 p (fun p1 => Some (caps p1)) with
      | Some cs => k (Pos (before p) (consumed p) (rest p) cs)
      | None => None
      end
  | WordBoundary =>
      if xorb (is_word_at (prev_char p)) (is_word_at (next_char p))
      then k p else None
  end.

(** One attempt at a given place of the subject. *)
Definition match_at (r : regex) (b : option ascii) (l : list ascii)
  : option pos :=
  rmatch r (Pos b [] l []) Some.

(** [pattern.sub(r"\g", subject)]: every non-overlapping match, leftmost
    first, is replaced by what group [g] captured (nothing when the group
    took no part in the match).  The matches of the program's pattern are
    never empty. *)
Fixpoint sub_group_from (fuel : nat) (r : regex) (g : nat)
    (b : option ascii) (l : list ascii) : list ascii :=
  match fuel with
  | O => l
  | S f =>
      match match_at r b l with
      | Some p =>
          default [] (capture g (caps p))
            ++ sub_group_from f r g (prev_char p) (rest p)
      | None =>
          match l with
          | c :: l' => c :: sub_group_from f r g (Some c) l'
          | [] => []
          end
      end
  end.

Definition sub_group (r : regex) (g : nat) (l : list ascii) : list ascii :=
  sub_group_from (S (length l)) r g None l.

End Re.

Export Re.

(* ===================================================================== *)
(** ** The program *)
(* ===================================================================== *)

Local Open Scope string_scope.
Local Open Scope list_scope.

(** *** Global constants *)

Definition CURRENCY : string := "$".
Definition UNIT : string := "m".
Definition COMPANY_NAME : string := "Wokki Company".
Definition CURRENT_YEAR_NUMBER : Z := 2023.
Definition LAST_YEAR_NUMBER : Z := 2022.

(** Row indices for specific financial items in the CSV.  The three ratio
    names are present with the value [None]. *)
Definition DEFAULT_COLUMN_ROW_INDEX : gmap string (option nat) :=
  list_to_map [
    ("current_asset", Some 7%nat);
    ("current_liability", Some 10%nat);
    ("ncib_debt", Some 9%nat);
    ("equity", Some 13%nat);
    ("ebit", Some 2%nat);
    ("interest_costs", Some 3%nat);
    ("debt_service_of_principal", Some 12%nat);
    ("revenue", Some 1%nat);
    ("profit", Some 4%nat);
    ("assets", Some 8%nat);
    ("liabilities", Some 11%nat);
    ("cash_flow", Some 15%nat);
    ("current_ratio", None);
    ("dte_ratio", None);
    ("dsc_ratio", None)
  ].

(** *** Values

    What a cell or a computed period value can be: text read from the input,
    a [Decimal], or [None]. *)
Inductive value : Type :=
| VStr (s : string)
| VDec (d : Decimal)
| VNone.

(** [str(value)] *)
Definition str (v : value) : string :=
  match v with
  | VStr s => s
  | VDec d => Decimal_str d
  | VNone => "None"
  end.

(** [safe_decimal]: [Decimal(str(value))], with [None] when the constructor
    raises [InvalidOperation]. *)
Definition safe_decimal (v : value) : option Decimal :=
  Decimal_of_string (str v).

(** The arithmetic of the registry's lambdas on attribute values, which are
    a [Decimal] or [None]; an operand [None] is a [TypeError]. *)
Definition truediv (a b : option Decimal) : result Decimal :=
  match a, b with
  | Some x, Some y => dec_div x y
  | _, _ => Raise TypeError
  end.

Definition add (a b : option Decimal) : result Decimal :=
  match a, b with
  | Some x, Some y => dec_add x y
  | _, _ => Raise TypeError
  end.

(** [x >= 0] for an attribute value. *)
Definition ge_int (a : option Decimal) (z : Z) : result bool :=
  match a with
  | Some x => dec_ge x (of_int z)
  | None => Raise TypeError
  end.

(** *** Row *)

Record Row : Type := mkRow {
  name : string;
  current_year : option Decimal;
  last_year : option Decimal;
  difference : option Decimal;
  ratio : option Decimal
}.

(** [Row(name, current_year, last_year)]: the generated [__init__] followed
    by [__post_init__]. *)
Definition Row_init (name : string) (current_year last_year : value)
  : result Row :=
  let current_year := safe_decimal current_year in
  let last_year := safe_decimal last_year in
  match current_year, last_year with
  | Some c, Some l =>
      difference <- dec_sub c l;;
      nonzero <- dec_ne l (of_int 0);;
      ratio <-
        (if nonzero then
           product <- dec_mul c l;;
           same_sign <- dec_ge product (of_int 0);;
           if same_sign then Some <$> dec_div difference l else Ok None
         else Ok None);;
      Ok (mkRow name current_year last_year (Some difference) ratio)
  | _, _ => Ok (mkRow name current_year last_year None None)
  end.

(** *** Table *)

Record Table : Type := mkTable {
  rows : list Row;
  row_name_index_dict : gmap string (option nat)
}.

Definition Table_init : Table := mkTable [] DEFAULT_COLUMN_ROW_INDEX.

(** [dict.get(key)]: [None] for a missing key and for a key bound to [None]. *)
Definition dict_get (d : gmap string (option nat)) (key : string)
  : option nat :=
  mjoin (d !! key).

(** [l[i]] *)
Definition getitem {A} (l : list A) (i : nat) : result A :=
  match l !! i with
  | Some x => Ok x
  | None => Raise IndexError
  end.

Definition get_row_by_name (self : Table) (row_name : string)
  : result (option Row) :=
  match dict_get (row_name_index_dict self) row_name with
  | None => Ok None
  | Some index =>
      if (length (rows self) <=? index)%nat then Ok None
      else Some <$> getitem (rows self) index
  end.

Definition add_row (self : Table) (row : Row) : Table :=
  mkTable (rows self ++ [row]) (row_name_index_dict self).

(** A list comprehension whose element expression may raise. *)
Fixpoint comprehension {A B} (f : A -> result B) (l : list A)
  : result (list B) :=
  match l with
  | [] => Ok []
  | a :: l' => b <- f a;; bs <- comprehension f l';; Ok (b :: bs)
  end.

(** [self.get_row_by_name(n).attr]: an [AttributeError] on [None]. *)
Definition row_attr (self : Table) (attr : Row -> option Decimal)
    (n : string) : result (option Decimal) :=
  r <- get_row_by_name self n;;
  match r with
  | Some row => Ok (attr row)
  | None => Raise AttributeError
  end.

Definition formula : Type := list (option Decimal) -> result Decimal.

Definition get_values_from_lambda_tuple (self : Table) (func : formula)
    (names : list string) : result (Decimal * Decimal) :=
  args_current <- comprehension (row_attr self current_year) names;;
  args_last <- comprehension (row_attr self last_year) names;;
  current <- func args_current;;
  last <- func args_last;;
  Ok (current, last).

(** *** Calculations for additional rows

    A call with the wrong number of arguments is a [TypeError]. *)
Definition ADDITIONAL_ROWS : list (string * (formula * list string)) := [
  ("Current Ratio",
   ((fun args => match args with
                 | [current_asset; current_liability] =>
                     truediv current_asset current_liability
                 | _ => Raise TypeError
                 end),
    ["current_asset"; "current_liability"]));
  ("Debt to Equity Ratio",
   ((fun args => match args with
                 | [ncib_debt; equity] => truediv ncib_debt equity
                 | _ => Raise TypeError
                 end),
    ["ncib_debt"; "equity"]));
  ("Debt Service Coverage Ratio",
   ((fun args => match args with
                 | [ebit; interest_costs; principal] =>
                     s <- add interest_costs principal;;
                     truediv ebit (Some s)
                 | _ => Raise TypeError
                 end),
    ["ebit"; "interest_costs"; "debt_service_of_principal"]))
].

(** [name.lower().replace(" ", "_")] *)
Definition index_key (name : string) : string :=
  text (replace_char " "%char ["_"%char] (lower (chars name))).

(** The two statements of the [try] block that can raise: the evaluation of
    the formula and the construction of the row. *)
Definition try_block (self : Table) (name : string) (func : formula)
    (args : list string) : result Row :=
  values <- get_values_from_lambda_tuple self func args;;
  let '(current, last) := (values : Decimal * Decimal) in
  Row_init name (VDec current) (VDec last).

(** One iteration of the loop of [generate_additional_rows]: the [try]
    block either runs to its end, appending the row and recording its
    position, or raises before touching the table, and then the handler
    appends the empty row. *)
Definition generate_one (self : Table)
    (entry : string * (formula * list string)) : result Table :=
  let '(name, (func, args)) := entry in
  match try_block self name func args with
  | Ok row =>
      let rows' := rows self ++ [row] in
      Ok (mkTable rows'
            (<[index_key name := Some (length rows' - 1)%nat]>
               (row_name_index_dict self)))
  | Raise _ =>
      row <- Row_init name (VStr "") (VStr "");;
      Ok (mkTable (rows self ++ [row]) (row_name_index_dict self))
  end.

Fixpoint generate_from (entries : list (string * (formula * list string)))
    (self : Table) : result Table :=
  match entries with
  | [] => Ok self
  | entry :: entries' =>
      self' <- generate_one self entry;;
      generate_from entries' self'
  end.

Definition generate_additional_rows (self : Table) : result Table :=
  generate_from ADDITIONAL_ROWS self.

(** *** Formatting output *)

Definition is_dot (c : ascii) : bool := Ascii.eqb c "."%char.
Definition is_zero_char (c : ascii) : bool := Ascii.eqb c "0"%char.
Definition is_1_to_9 (c : ascii) : bool :=
  (49 <=? N_of_ascii c)%N && (N_of_ascii c <=? 57)%N.
Definition not_0_to_9 (c : ascii) : bool := negb (is_digit c).

(** [(?:(\.)|(\.\d*?[1-9]\d*?))0+(?=\b|[^0-9])] *)
Definition tail_dot_rgx : regex :=
  Cat (Alt (Group 1 (Class is_dot))
           (Group 2 (Cat (Class is_dot)
                    (Cat (LazyStar is_digit)
                    (Cat (Class is_1_to_9) (LazyStar is_digit))))))
      (Cat (Plus is_zero_char)
           (Ahead (Alt WordBoundary (Class not_0_to_9)))).

(** [tail_dot_rgx.sub(r"\2", a)] *)
Definition remove_tail_dot_zeros (a : string) : string :=
  text (sub_group tail_dot_rgx 2 (chars a)).

(** [format_decimal(value, as_percent=False, with_commas=True)].  Formatting
    a [Decimal] with these specifications does not raise, so the handler of
    the source is never entered. *)
Definition format_decimal (value : option Decimal)
    (as_percent with_commas : bool) : string :=
  match value with
  | None => ""
  | Some v =>
      if as_percent then text (Decimal_format v true false)
      else remove_tail_dot_zeros (text (Decimal_format v false with_commas))
  end.

(** *** The narrative report *)

Definition nl : string := String (ascii_of_nat 10) EmptyString.

Definition report_names : list string :=
  ["revenue"; "profit"; "assets"; "liabilities"; "equity";
   "current_ratio"; "dte_ratio"; "dsc_ratio"].

Definition concat_str (l : list string) : string :=
  fold_right String.append "" l.

(** The paragraph written for a row. *)
Definition paragraph (name : string) (change_type : string) (row : Row)
  : string :=
  concat_str [
    COMPANY_NAME; " has seen "; change_type; " in ";
    text (replace_char "_"%char [" "%char] (chars name)); " in ";
    int_str LAST_YEAR_NUMBER; " of "; CURRENCY;
    format_decimal (difference row) false true; UNIT;
    " ("; format_decimal (ratio row) true true; ") from ";
    CURRENCY; format_decimal (last_year row) false true; UNIT; " to ";
    CURRENCY; format_decimal (current_year row) false true; UNIT;
    "."; nl; nl ].

Definition warning_line : string :=
  concat_str ["!!! Ratio > 1.0 – may require further explanation"; nl; nl].

(** [row.ratio and abs(row.ratio) > 1] as a condition. *)
Definition ratio_above_one (row : Row) : result bool :=
  match ratio row with
  | None => Ok false
  | Some r =>
      if dec_bool r then a <- dec_abs r;; dec_gt a (of_int 1) else Ok false
  end.

(** [write_text_report(file, table)]: [file] is what has been written so
    far; the result is what has been written when the function returns or
    raises. *)
Fixpoint write_text_report_from (names : list string) (file : string)
    (table : Table) : string * result unit :=
  match names with
  | [] => (file, Ok tt)
  | name :: names' =>
      match get_row_by_name table name with
      | Raise e => (file, Raise e)
      | Ok None => write_text_report_from names' file table
      | Ok (Some row) =>
          match ge_int (difference row) 0 with
          | Raise e => (file, Raise e)
          | Ok increase =>
              let change_type :=
                if increase then "an increase" else "a decrease" in
              let file := String.append file (paragraph name change_type row) in
              match ratio_above_one row with
              | Raise e => (file, Raise e)
              | Ok true =>
                  write_text_report_from names'
                    (String.append file warning_line) table
              | Ok false => write_text_report_from names' file table
              end
          end
      end
  end.

Definition write_text_report (file : string) (table : Table)
  : string * result unit :=
  write_text_report_from report_names file table.

(** *** The whole run

    The input is what the reader yields: one record of three cells per line
    item, the first being the name.  The two sinks are the records written
    to the tabular file and the text written to the narrative file; a sink
    is [None] when the run stopped before opening it. *)
Record run : Type := mkRun {
  csv_sink : option (list (list string));
  txt_sink : option string;
  status : result unit
}.

Definition csv_header : list string :=
  ["name"; "current_year"; "last_year"; "difference"; "ratio"].

Definition csv_record (row : Row) : list string :=
  [ name row;
    format_decimal (current_year row) false true;
    format_decimal (last_year row) false true;
    format_decimal (difference row) false true;
    format_decimal (ratio row) true true ].

Fixpoint read_rows (records : list (string * value * value))
    (table : Table) : result Table :=
  match records with
  | [] => Ok table
  | (n, c, l) :: records' =>
      row <- Row_init n c l;;
      read_rows records' (add_row table row)
  end.

Definition analyse_file (records : list (string * value * value)) : run :=
  match (table <- read_rows records Table_init;;
         generate_additional_rows table) with
  | Raise e => mkRun None None (Raise e)
  | Ok table =>
      let csv := csv_header :: map csv_record (rows table) in
      let '(txt, st) := write_text_report "" table in
      mkRun (Some csv) (Some txt) st
  end.

(* ===================================================================== *)
(** ** Notions used to state the properties *)
(* ===================================================================== *)

(** A statement with the sixteen line items the index map expects. *)
Definition sample_statement : list (string * value * value) := [
  ("Units sold", VStr "500", VStr "450");
  ("Revenue", VStr "1200.50", VStr "1000");
  ("EBIT", VStr "300", VStr "250");
  ("Interest costs", VStr "20", VStr "25");
  ("Profit", VStr "200", VStr "180");
  ("Tax", VStr "50", VStr "45");
  ("Cash", VStr "80", VStr "60");
  ("Current assets", VStr "100", VStr "80");
  ("Total assets", VStr "900", VStr "850");
  ("Non-current interest-bearing debt", VStr "300", VStr "320");
  ("Current liabilities", VStr "50", VStr "40");
  ("Total liabilities", VStr "400", VStr "410");
  ("Debt service of principal", VStr "30", VStr "30");
  ("Equity", VStr "500", VStr "440");
  ("Dividends", VStr "10", VStr "10");
  ("Cash flow", VStr "70", VStr "65")
].

(** The same statement with a revenue cell that is not a number. *)
Definition statement_with_bad_revenue : list (string * value * value) :=
  <[1%nat := ("Revenue", VStr "n/a", VStr "1000")]> sample_statement.

(** The same statement cut after the debt-service line: no equity line. *)
Definition statement_without_equity : list (string * value * value) :=
  take 13 sample_statement.

(** The table after reading a statement, before the derived rows. *)
Definition table_of (records : list (string * value * value))
  : result Table :=
  read_rows records Table_init.

(** The table of the sample statement. *)
Definition sample_table : Table :=
  match table_of sample_statement with
  | Ok table => table
  | Raise _ => Table_init
  end.



(** The rows that [generate_additional_rows] appends to the table of a
    statement. *)
Definition derived_rows (records : list (string * value * value))
  : result (list Row) :=
  table <- table_of records;;
  table' <- generate_additional_rows table;;
  Ok (drop (length (rows table)) (rows table')).

(** The row in which every period value is missing. *)
Definition missing_row (name : string) : Row :=
  mkRow name None None None None.


(** [prior == 0] in decimal arithmetic. *)
Definition is_zero (d : Decimal) : Prop :=
  dec_eq d (of_int 0) = Ok true.

(** The sign of the exact value of a number: -1, 0 or 1. *)
Definition sign_of (d : Decimal) : Z :=
  match d with
  | Fin s c _ => Z.sgn (signed s c)
  | Inf s => if s then (-1)%Z else 1%Z
  | NaN _ _ _ => 0%Z
  end.

(** The exact product of the two numbers is negative. *)
Definition crosses_sign (c l : Decimal) : Prop :=
  (sign_of c * sign_of l < 0)%Z.

(** What may follow the digits of a number: nothing or an exponent. *)
Definition exponent_part (r : list ascii) (x : Z) : Prop :=
  (r = [] /\ x = 0%Z) \/
  (r = "e"%char :: (if (0 <=? x)%Z then "+"%char else "-"%char)
         :: digits_of (Z.to_N (Z.abs x))).

(** The two fractional digits once their trailing zeros are dropped; the
    decimal point goes only when both do. *)
Definition strip_fraction (d1 d2 : ascii) : list ascii :=
  if Ascii.eqb d2 "0" then (if Ascii.eqb d1 "0" then [] else ["."%char; d1])
  else ["."%char; d1; d2].

(** A number of ordinary size: at most [prec] significant digits and an
    exponent between -400000 and 400000. *)
Definition ordinary (d : Decimal) : Prop :=
  match d with
  | Fin _ c e => Z.of_N (ndigits c) <= prec /\ -400000 <= e <= 400000
  | _ => False
  end.

(** The row built for a record of the input. *)
Definition row_of_record (record : string * value * value) : result Row :=
  let '(n, c, l) := record in Row_init n c l.

(** The row that an iteration appends for a registry entry evaluated on a
    table: the row of the [try] block, or the empty row of the handler. *)
Definition derived_row_of (self : Table)
    (entry : string * (formula * list string)) : Row :=
  let '(n, (func, args)) := entry in
  match try_block self n func args with
  | Ok row => row
  | Raise _ => missing_row n
  end.

(** Whether the [try] block of an entry runs to its end on a table. *)
Definition entry_succeeds (self : Table)
    (entry : string * (formula * list string)) : bool :=
  let '(n, (func, args)) := entry in
  match try_block self n func args with
  | Ok _ => true
  | Raise _ => false
  end.

(** A record both of whose cells parse to numbers of ordinary size. *)
Definition ordinary_record (record : string * value * value) : Prop :=
  let '(_, c, l) := record in
  exists dc dl,
    safe_decimal c = Some dc /\ safe_decimal l = Some dl /\
    ordinary dc /\ ordinary dl.

(** A digit string without its trailing zeros. *)
Fixpoint strip_trailing_zeros (digits : list ascii) : list ascii :=
  match digits with
  | [] => []
  | d :: digits' =>
      match strip_trailing_zeros digits' with
      | [] => if Ascii.eqb d "0" then [] else [d]
      | kept => d :: kept
      end
  end.

(** The end of the pattern: the zeros and the look-ahead. *)
Definition zeros_then_boundary : regex :=
  Cat (Plus is_zero_char) (Ahead (Alt WordBoundary (Class not_0_to_9))).

(** What follows the second group of the pattern: the group is closed on
    everything consumed since the start of the attempt, then come the
    zeros. *)
Definition close_fraction (p1 : pos) : option pos :=
  rmatch zeros_then_boundary
    (Pos (before p1) (consumed p1) (rest p1)
       ((2%nat, rev (take (length (consumed p1) - 0) (consumed p1)))
          :: caps p1))
    Some.

(** What follows the first lazy run of digits of the second group. *)
Definition last_nonzero_then (p : pos) : option pos :=
  rmatch (Cat (Class is_1_to_9) (LazyStar is_digit)) p close_fraction.

(** A fractional part without its trailing zeros; the decimal point goes
    when no digit is left, and stays when there was none. *)
Definition stripped_fraction (digits : list ascii) : list ascii :=
  match digits with
  | [] => ["."%char]
  | _ =>
      match strip_trailing_zeros digits with
      | [] => []
      | kept => "."%char :: kept
      end
  end.

(** The sample statement with no current liabilities this year, and its
    table. *)
Definition statement_with_zero_liabilities : list (string * value * value) :=
  <[10%nat := ("Current liabilities", VStr "0", VStr "40")]> sample_statement.

Definition zero_liabilities_table : Table :=
  match table_of statement_with_zero_liabilities with
  | Ok table => table
  | Raise _ => Table_init
  end.


(** A number that the report can compare with one: its magnitude can be
    rounded to the context. *)
Definition settled (d : Decimal) : Prop :=
  match d with
  | Fin _ c e => exists x, dec_fix (Fin false c e) = Ok x
  | Inf _ => True
  | NaN _ _ _ => False
  end.

(** A row both of whose period values are finite numbers. *)
Definition numeric (row : Row) : Prop :=
  match current_year row, last_year row with
  | Some (Fin _ _ _), Some (Fin _ _ _) => True
  | _, _ => False
  end.

(** A row for which the report can write its paragraph. *)
Definition reportable (row : Row) : Prop :=
  (exists s c e, difference row = Some (Fin s c e)) /\
  match ratio row with
  | Some q => settled q
  | None => True
  end.

(** The table of the statement with a revenue cell that is not a number. *)
Definition bad_revenue_table : Table :=
  match table_of statement_with_bad_revenue with
  | Ok table => table
  | Raise _ => Table_init
  end.

(** The table of the sample statement after the loop over the registry. *)
Definition sample_table_with_ratios : Table :=
  match generate_additional_rows sample_table with
  | Ok table => table
  | Raise _ => Table_init
  end.

(** Case analysis on an entry of the registry. *)
Ltac registry_cases H :=
  cbn [ADDITIONAL_ROWS In] in H;
  repeat (destruct H as [H|H]; [subst|]); [..|destruct H].

(* ===================================================================== *)
(** ** Properties of the table *)
(* ===================================================================== *)

Section TableFacts.

Implicit Types (self : Table) (row : Row) (n : string).

Lemma getitem_in_range {A} (l : list A) (i : nat) :
  (i < length l)%nat -> exists x, l !! i = Some x /\ getitem l i = Ok x.
Proof.
  intros Hi. destruct (lookup_lt_is_Some_2 l i Hi) as [x Hx].
  exists x. unfold getitem. rewrite Hx. auto.
Qed.

(** What the lookup returns, by cases on the index map and the length. *)
Lemma get_row_by_name_cases self n :
  match row_name_index_dict self !! n with
  | Some (Some i) =>
      if (length (rows self) <=? i)%nat
      then get_row_by_name self n = Ok None
      else exists row,
             rows self !! i = Some row /\
             get_row_by_name self n = Ok (Some row)
  | _ => get_row_by_name self n = Ok None
  end.
Proof.
  unfold get_row_by_name, dict_get.
  destruct (row_name_index_dict self !! n) as [[i|]|]; simpl; auto.
  destruct (Nat.leb_spec (length (rows self)) i) as [Hle|Hlt]; auto.
  destruct (getitem_in_range (rows self) i Hlt) as (row & Hrow & Hget).
  exists row. rewrite Hget. auto.
Qed.

Lemma get_row_by_name_total self n :
  exists o, get_row_by_name self n = Ok o.
Proof.
  pose proof (get_row_by_name_cases self n) as H.
  destruct (row_name_index_dict self !! n) as [[i|]|]; eauto.
  destruct (length (rows self) <=? i)%nat; eauto.
  destruct H as (row & _ & H). eauto.
Qed.

(** The empty row of the handler. *)
Lemma Row_init_empty n :
  Row_init n (VStr "") (VStr "") = Ok (missing_row n).
Proof. reflexivity. Qed.

(** An iteration always ends normally and appends one row. *)
Lemma generate_one_cases self name func args :
  match try_block self name func args with
  | Ok row =>
      generate_one self (name, (func, args)) =
        Ok (mkTable (rows self ++ [row])
              (<[index_key name := Some (length (rows self))]>
                 (row_name_index_dict self)))
  | Raise _ =>
      generate_one self (name, (func, args)) =
        Ok (mkTable (rows self ++ [missing_row name])
              (row_name_index_dict self))
  end.
Proof.
  unfold generate_one.
  destruct (try_block self name func args) as [row|e].
  - rewrite length_app. simpl.
    replace (length (rows self) + 1 - 1)%nat with (length (rows self)) by lia.
    reflexivity.
  - rewrite Row_init_empty. reflexivity.
Qed.

End TableFacts.

(** C6.  For every table and every name, the lookup never raises; it
    returns a row exactly when the name is bound to an index below the
    current number of rows, and that row is the one at this index; it returns
    not-found exactly when the name is unbound, bound to [None], or bound to
    an index at or beyond the current length. *)
Theorem lookup_is_bounds_checked (self : Table) (n : string) :
  (exists o, get_row_by_name self n = Ok o) /\
  (forall row,
     get_row_by_name self n = Ok (Some row) <->
     exists i, row_name_index_dict self !! n = Some (Some i) /\
               (i < length (rows self))%nat /\
               rows self !! i = Some row) /\
  (get_row_by_name self n = Ok None <->
     row_name_index_dict self !! n = None \/
     row_name_index_dict self !! n = Some None \/
     exists i, row_name_index_dict self !! n = Some (Some i) /\
               (length (rows self) <= i)%nat).
Proof.
  pose proof (get_row_by_name_cases self n) as H.
  split; [apply get_row_by_name_total|].
  destruct (row_name_index_dict self !! n) as [[i|]|] eqn:Hd.
  - destruct (Nat.leb_spec (length (rows self)) i) as [Hle|Hlt].
    + rewrite H. split.
      * intros row. split; [discriminate|].
        intros (j & Hj & Hlt & _). injection Hj as <-. lia.
      * split; eauto 6.
    + destruct H as (row & Hrow & ->). split.
      * intros row'. split.
        -- intros [= <-]. eauto.
        -- intros (j & Hj & _ & Hrow'). injection Hj as <-. congruence.
      * split; [discriminate|].
        intros [?|[?|(j & Hj & Hle)]]; try discriminate.
        injection Hj as <-. lia.
  - rewrite H. split.
    + intros row. split; [discriminate|]. intros (j & Hj & _). discriminate.
    + split; auto.
  - rewrite H. split.
    + intros row. split; [discriminate|]. intros (j & Hj & _). discriminate.
    + split; auto.
Qed.

(* ===================================================================== *)
(** ** Derived rows: what an iteration records *)
(* ===================================================================== *)

(** C7, as stated, fails: on the empty table the first formula falls back
    to the empty row, and the lookup map does not bind its normalized name
    to the position of that row. *)
Lemma fallback_row_is_not_registered :
  ~ (forall self entry self',
       In entry ADDITIONAL_ROWS ->
       generate_one self entry = Ok self' ->
       dict_get (row_name_index_dict self') (index_key entry.1)
         = Some (length (rows self))).
Proof.
  intros H.
  specialize (H Table_init
                (nth 0 ADDITIONAL_ROWS ("", (fun _ => Raise TypeError, [])))
                _ (or_introl eq_refl) eq_refl).
  vm_compute in H. discriminate.
Qed.

(** C7, amended.  Every iteration appends one row.  When the formula and
    the construction of the row succeed, the row's normalized name
    (lower-cased, spaces replaced by underscores) is bound to the row's
    position, so that the row can be looked up under that name; when the
    iteration falls back to the empty row, the lookup map is unchanged. *)
Theorem registration_on_success_only (self : Table) (name : string)
    (func : formula) (args : list string) :
  (exists self' row,
     generate_one self (name, (func, args)) = Ok self' /\
     rows self' = rows self ++ [row] /\
     match try_block self name func args with
     | Ok r =>
         row = r /\
         row_name_index_dict self' =
           <[index_key name := Some (length (rows self))]>
             (row_name_index_dict self) /\
         get_row_by_name self' (index_key name) = Ok (Some row)
     | Raise _ =>
         row = missing_row name /\
         row_name_index_dict self' = row_name_index_dict self
     end) /\
  map (fun entry => index_key entry.1) ADDITIONAL_ROWS =
    ["current_ratio"; "debt_to_equity_ratio"; "debt_service_coverage_ratio"].
Proof.
  split; [|reflexivity].
  pose proof (generate_one_cases self name func args) as H.
  destruct (try_block self name func args) as [r|e].
  - eexists _, r. split; [exact H|]. simpl. repeat split.
    unfold get_row_by_name, dict_get. simpl.
    rewrite lookup_insert_eq. simpl.
    rewrite length_app. simpl.
    destruct (Nat.leb_spec (length (rows self) + 1) (length (rows self)));
      [lia|].
    unfold getitem.
    rewrite lookup_app_r by lia. rewrite Nat.sub_diag. reflexivity.
  - eexists _, (missing_row name). split; [exact H|]. simpl. auto.
Qed.

(* ===================================================================== *)
(** ** Rows with a missing period value *)
(* ===================================================================== *)

Lemma format_decimal_missing (as_percent with_commas : bool) :
  format_decimal None as_percent with_commas = "".
Proof. reflexivity. Qed.

Lemma Row_init_missing (n : string) (c l : value) :
  safe_decimal c = None \/ safe_decimal l = None ->
  Row_init n c l = Ok (mkRow n (safe_decimal c) (safe_decimal l) None None).
Proof.
  unfold Row_init. intros [H|H]; rewrite H.
  - reflexivity.
  - destruct (safe_decimal c); reflexivity.
Qed.

(** C8.  When at least one of the two raw period values fails to parse, the
    row is built, its difference and its change ratio are both missing, a
    missing value is formatted as the empty string, and the record written to
    the tabular sink has both fields empty. *)
Theorem missing_propagates (n : string) (c l : value) :
  safe_decimal c = None \/ safe_decimal l = None ->
  exists row,
    Row_init n c l = Ok row /\
    difference row = None /\
    ratio row = None /\
    (forall as_percent with_commas,
       format_decimal None as_percent with_commas = "") /\
    csv_record row =
      [n; format_decimal (safe_decimal c) false true;
       format_decimal (safe_decimal l) false true; ""; ""].
Proof.
  intros H. eexists. split; [apply Row_init_missing, H|].
  repeat split.
Qed.

Lemma missing_propagates_witness :
  (safe_decimal (VStr "n/a") = None \/ safe_decimal (VStr "1000") = None) /\
  exists row,
    Row_init "Revenue" (VStr "n/a") (VStr "1000") = Ok row /\
    difference row = None /\
    ratio row = None /\
    (forall as_percent with_commas,
       format_decimal None as_percent with_commas = "") /\
    csv_record row =
      ["Revenue"; format_decimal (safe_decimal (VStr "n/a")) false true;
       format_decimal (safe_decimal (VStr "1000")) false true; ""; ""].
Proof.
  split; [left; reflexivity|].
  apply (missing_propagates "Revenue" (VStr "n/a") (VStr "1000")).
  left; reflexivity.
Defined.

(* ===================================================================== *)
(** ** The narrative report *)
(* ===================================================================== *)









(** A reported row without a difference stops the report: [None >= 0] is a
    [TypeError], raised before anything is written for the row. *)
Lemma report_raises_on_missing_difference
    (table : Table) (name : string) (names : list string) (file : string)
    (row : Row) :
  get_row_by_name table name = Ok (Some row) ->
  difference row = None ->
  write_text_report_from (name :: names) file table = (file, Raise TypeError).
Proof. intros Hrow Hdiff. simpl. rewrite Hrow, Hdiff. reflexivity. Qed.

(** C4, at the failing input.  The statement whose revenue cell reads "n/a"
    is read and its derived rows are computed, the tabular sink is written
    (its header and nineteen records), and the narrative report then raises
    [TypeError] on the revenue row, leaving an empty narrative file: the run
    does not complete. *)
Theorem unparseable_revenue_aborts_the_run :
  safe_decimal (VStr "n/a") = None /\
  (table <- table_of statement_with_bad_revenue;;
   table' <- generate_additional_rows table;;
   get_row_by_name table' "revenue") =
    Ok (Some (mkRow "Revenue" None (Some (Fin false 1000 0)) None None)) /\
  (length <$> csv_sink (analyse_file statement_with_bad_revenue)) = Some 20%nat /\
  txt_sink (analyse_file statement_with_bad_revenue) = Some "" /\
  status (analyse_file statement_with_bad_revenue) = Raise TypeError.
Proof. repeat split; vm_compute; reflexivity. Qed.

(* ===================================================================== *)
(** ** Derived rows: isolation of the formulas *)
(* ===================================================================== *)

(** C3, at the failing input.  In the statement cut after its thirteenth
    line the name "equity" resolves to no row.  The first derived row,
    "Current Ratio", is appended at position 13, which is the position the
    index map gives to "equity"; the second formula then reads it as the
    equity line, so "Debt to Equity Ratio" is computed (300 / 2 and 320 / 2)
    instead of being the empty row. *)
Theorem derived_row_taken_for_equity :
  (table <- table_of statement_without_equity;;
   get_row_by_name table "equity") = Ok None /\
  (table <- table_of statement_without_equity;;
   table' <- generate_additional_rows table;;
   get_row_by_name table' "equity") =
    Ok (Some (mkRow "Current Ratio" (Some (Fin false 2 0))
                (Some (Fin false 2 0)) (Some (Fin false 0 0))
                (Some (Fin false 0 0)))) /\
  (rows' <- derived_rows statement_without_equity;; Ok (rows' !! 1%nat)) =
    Ok (Some (mkRow "Debt to Equity Ratio" (Some (Fin false 150 0))
                (Some (Fin false 160 0)) (Some (Fin true 10 0))
                (Some (Fin true 625 (-4))))).
Proof. repeat split; vm_compute; reflexivity. Qed.

(* ===================================================================== *)
(** ** Construction of a row: faults *)
(* ===================================================================== *)

(** C5, as stated, fails: the text "NaN" parses to a quiet NaN, the
    subtraction propagates it, and the ordering comparison of the sign test
    raises [InvalidOperation], which nothing catches. *)
Lemma nan_cell_raises :
  safe_decimal (VStr "NaN") = Some (NaN false false 0) /\
  Row_init "Revenue" (VStr "NaN") (VStr "1000") = Raise InvalidOperation.
Proof. split; reflexivity. Qed.

(* ===================================================================== *)
(** ** Facts about decimal digits *)
(* ===================================================================== *)

Section DigitsFacts.

Local Open Scope N_scope.

Lemma log2_div10_lt (n : N) : 10 <= n -> N.log2 (n / 10) < N.log2 n.
Proof.
  intros Hn.
  assert (Hm : 0 < n / 10).
  { apply N.div_str_pos. lia. }
  assert (Hle : 2 * (n / 10) <= n).
  { pose proof (N.Div0.mul_div_le n 10). lia. }
  apply N.log2_le_mono in Hle.
  rewrite N.log2_double in Hle by exact Hm. lia.
Qed.

Lemma digits_aux_app (f : nat) : forall n acc,
  digits_aux f n acc = (digits_aux f n [] ++ acc)%list.
Proof.
  induction f as [|f IH]; intros n acc; simpl; [reflexivity|].
  destruct (n <? 10); [reflexivity|].
  rewrite IH. rewrite (IH _ [_]). rewrite <- app_assoc. reflexivity.
Qed.

Lemma digits_aux_fuel (f1 : nat) : forall f2 n acc,
  N.log2 n < N.of_nat f1 -> N.log2 n < N.of_nat f2 ->
  digits_aux f1 n acc = digits_aux f2 n acc.
Proof.
  induction f1 as [|f1 IH]; intros f2 n acc H1 H2; [lia|].
  destruct f2 as [|f2]; [lia|]. simpl.
  destruct (N.ltb_spec n 10) as [Hlt|Hge]; [reflexivity|].
  pose proof (log2_div10_lt n Hge).
  apply IH; lia.
Qed.

(** The defining equation of [str] on integers. *)
Lemma digits_of_eq (n : N) :
  digits_of n =
    if n <? 10 then [digit_char n]
    else (digits_of (n / 10) ++ [digit_char (n mod 10)])%list.
Proof.
  unfold digits_of at 1. simpl.
  destruct (N.ltb_spec n 10) as [Hlt|Hge].
  - rewrite N.mod_small by exact Hlt. reflexivity.
  - rewrite digits_aux_app. f_equal.
    pose proof (log2_div10_lt n Hge).
    apply digits_aux_fuel; lia.
Qed.

(** Induction along the digits of a number. *)
Lemma digits_ind (P : N -> Prop) :
  (forall n, n < 10 -> P n) ->
  (forall n, 10 <= n -> P (n / 10) -> P n) ->
  forall n, P n.
Proof.
  intros Hsmall Hstep n.
  induction n as [n IH] using (well_founded_induction N.lt_wf_0).
  destruct (N.ltb_spec n 10) as [Hlt|Hge]; [auto|].
  apply Hstep; [exact Hge|]. apply IH.
  apply N.div_lt; lia.
Qed.

Lemma digit_char_is_digit (d : N) : d < 10 -> is_digit (digit_char d) = true.
Proof.
  intros H. unfold is_digit, digit_char.
  rewrite N_ascii_embedding by lia.
  apply andb_true_intro. split; apply N.leb_le; lia.
Qed.

Lemma digit_val_char (d : N) : d < 10 -> digit_val (digit_char d) = d.
Proof.
  intros H. unfold digit_val, digit_char.
  rewrite N_ascii_embedding by lia. lia.
Qed.

Lemma digits_of_all_digits (n : N) : Forall (fun c => is_digit c = true) (digits_of n).
Proof.
  induction n as [n Hn|n Hn IH] using digits_ind; rewrite digits_of_eq.
  - apply N.ltb_lt in Hn as Hb. rewrite Hb.
    constructor; [apply digit_char_is_digit, Hn|constructor].
  - apply N.ltb_ge in Hn as Hb. rewrite Hb.
    apply Forall_app. split; [exact IH|].
    constructor; [|constructor].
    apply digit_char_is_digit, N.mod_lt. lia.
Qed.

Lemma of_digits_snoc (l : list ascii) (c : ascii) :
  of_digits (l ++ [c]) = of_digits l * 10 + digit_val c.
Proof. unfold of_digits. rewrite fold_left_app. reflexivity. Qed.

(** [int(str(n)) == n] *)
Lemma of_digits_of (n : N) : of_digits (digits_of n) = n.
Proof.
  induction n as [n Hn|n Hn IH] using digits_ind; rewrite digits_of_eq.
  - apply N.ltb_lt in Hn as Hb. rewrite Hb.
    unfold of_digits. simpl. apply digit_val_char, Hn.
  - apply N.ltb_ge in Hn as Hb. rewrite Hb.
    rewrite of_digits_snoc, IH, digit_val_char by (apply N.mod_lt; lia).
    pose proof (N.Div0.div_mod n 10). lia.
Qed.

Lemma ndigits_eq (n : N) :
  ndigits n = if n <? 10 then 1 else N.succ (ndigits (n / 10)).
Proof.
  unfold ndigits. rewrite digits_of_eq.
  destruct (n <? 10); [reflexivity|].
  rewrite length_app. simpl. lia.
Qed.

Lemma ndigits_pos (n : N) : 1 <= ndigits n.
Proof. rewrite ndigits_eq. destruct (n <? 10); lia. Qed.

(** A number is below the power of ten of its number of digits... *)
Lemma ndigits_upper (n : N) : n < 10 ^ ndigits n.
Proof.
  induction n as [n Hn|n Hn IH] using digits_ind; rewrite ndigits_eq.
  - apply N.ltb_lt in Hn as Hb. rewrite Hb. exact Hn.
  - apply N.ltb_ge in Hn as Hb. rewrite Hb.
    rewrite N.pow_succ_r'.
    pose proof (N.Div0.div_mod n 10).
    pose proof (N.mod_lt n 10). lia.
Qed.

(** ... and, unless it is a single digit, at least the previous one. *)
Lemma ndigits_lower (n : N) : 0 < n -> 10 ^ (ndigits n - 1) <= n.
Proof.
  induction n as [n Hn|n Hn IH] using digits_ind; intros Hpos;
    rewrite ndigits_eq.
  - apply N.ltb_lt in Hn as Hb. rewrite Hb.
    change (10 ^ (1 - 1)) with 1. lia.
  - apply N.ltb_ge in Hn as Hb. rewrite Hb.
    assert (Hq : 0 < n / 10) by (apply N.div_str_pos; lia).
    specialize (IH Hq).
    pose proof (ndigits_pos (n / 10)).
    replace (N.succ (ndigits (n / 10)) - 1) with (N.succ (ndigits (n / 10) - 1))
      by lia.
    rewrite N.pow_succ_r'.
    pose proof (N.Div0.mul_div_le n 10). lia.
Qed.

(** A number below [10^k] has at most [k] digits. *)
Lemma ndigits_le (n k : N) : 1 <= k -> n < 10 ^ k -> ndigits n <= k.
Proof.
  intros Hk Hn.
  destruct (N.eq_dec n 0) as [->|Hnz].
  - rewrite ndigits_eq. simpl. exact Hk.
  - destruct (N.le_gt_cases (ndigits n) k) as [|Hgt]; [assumption|].
    exfalso.
    pose proof (ndigits_lower n ltac:(lia)) as Hlow.
    assert (10 ^ k <= 10 ^ (ndigits n - 1)).
    { apply N.pow_le_mono_r; lia. }
    lia.
Qed.

End DigitsFacts.

(* ===================================================================== *)
(** ** [Decimal(str(d))] gives back [d] *)
(* ===================================================================== *)

Section RoundTrip.

Local Open Scope char_scope.

Local Abbreviation digit_list l := (Forall (fun c => is_digit c = true) l).

(** Characters that [strip] and the removal of underscores leave alone. *)
Local Abbreviation plain l :=
  (Forall (fun c => is_space c = false /\ Ascii.eqb c "_" = false) l).

Lemma is_digit_plain (c : ascii) :
  is_digit c = true -> is_space c = false /\ Ascii.eqb c "_" = false.
Proof.
  unfold is_digit, is_space. intros H.
  apply andb_prop in H as [H1 H2].
  apply N.leb_le in H1. apply N.leb_le in H2.
  split.
  - apply orb_false_intro; apply andb_false_intro2; apply N.leb_gt; lia.
  - apply Ascii.eqb_neq. intros ->. vm_compute in H2. exact (H2 eq_refl).
Qed.

Lemma digit_list_plain (l : list ascii) : digit_list l -> plain l.
Proof.
  intros H. eapply Forall_impl; [exact H|]. intros c. apply is_digit_plain.
Qed.

Lemma is_digit_lower (c : ascii) : is_digit c = true -> lower_char c = c.
Proof.
  unfold is_digit, lower_char. intros H.
  apply andb_prop in H as [H1 H2].
  apply N.leb_le in H1. apply N.leb_le in H2.
  destruct (N.leb_spec 65 (N_of_ascii c)); [|reflexivity].
  lia.
Qed.

Lemma digit_list_lower (l : list ascii) : digit_list l -> lower l = l.
Proof.
  induction 1 as [|c l Hc Hl IH]; [reflexivity|].
  unfold lower in *. simpl. rewrite IH, is_digit_lower by exact Hc.
  reflexivity.
Qed.

Lemma lstrip_plain (l : list ascii) : plain l -> lstrip l = l.
Proof. destruct 1 as [|c l [Hc _] Hl]; simpl; [|rewrite Hc]; reflexivity. Qed.

Lemma strip_plain (l : list ascii) : plain l -> strip l = l.
Proof.
  intros H. unfold strip. rewrite (lstrip_plain l H).
  rewrite lstrip_plain by (apply Forall_rev, H).
  apply rev_involutive.
Qed.

Lemma remove_underscores_plain (l : list ascii) :
  plain l -> replace_char "_" [] l = l.
Proof.
  induction 1 as [|c l [_ Hc] Hl IH]; [reflexivity|].
  unfold replace_char in *. simpl. rewrite Hc, IH. reflexivity.
Qed.

Lemma span_digits_app (ds r : list ascii) :
  digit_list ds ->
  match r with [] => True | c :: _ => is_digit c = false end ->
  span_digits (ds ++ r) = (ds, r).
Proof.
  intros Hds Hr. induction Hds as [|c ds Hc Hds IH]; simpl.
  - destruct r as [|c r]; [reflexivity|]. simpl. rewrite Hr. reflexivity.
  - rewrite Hc, IH. reflexivity.
Qed.

Lemma of_digits_zeros (k : nat) (l : list ascii) :
  of_digits (repeat "0" k ++ l) = of_digits l.
Proof.
  unfold of_digits. rewrite fold_left_app. f_equal.
  induction k as [|k IH]; [reflexivity|]. simpl. exact IH.
Qed.

Lemma digits_of_nonempty (n : N) : digits_of n <> [].
Proof.
  pose proof (ndigits_pos n) as H. unfold ndigits in H.
  destruct (digits_of n); [simpl in H; lia|discriminate].
Qed.

(** The exponent printed by ["E%+d"] is read back. *)
Lemma parse_exp_printed (z : Z) :
  parse_exp ("e" :: (if (0 <=? z)%Z then "+" else "-")
               :: digits_of (Z.to_N (Z.abs z))) = Some z.
Proof.
  unfold parse_exp.
  assert (Hs : parse_sign ((if (0 <=? z)%Z then "+" else "-")
                             :: digits_of (Z.to_N (Z.abs z)))
               = (negb (0 <=? z)%Z, digits_of (Z.to_N (Z.abs z)))).
  { destruct (0 <=? z)%Z; reflexivity. }
  rewrite Hs.
  assert (Hd0 : span_digits (digits_of (Z.to_N (Z.abs z)))
                = (digits_of (Z.to_N (Z.abs z)), [])).
  { rewrite <- (app_nil_r (digits_of _)) at 1.
    apply span_digits_app; auto using digits_of_all_digits. }
  rewrite Hd0.
  pose proof (digits_of_nonempty (Z.to_N (Z.abs z))) as Hne.
  destruct (digits_of (Z.to_N (Z.abs z))) as [|c l] eqn:Hd; [congruence|].
  rewrite <- Hd, of_digits_of. f_equal.
  unfold signed. destruct (Z.leb_spec 0 z); simpl; lia.
Qed.

Lemma exponent_part_parse (r : list ascii) (x : Z) :
  exponent_part r x -> parse_exp r = Some x.
Proof.
  intros [[-> ->]| ->]; [reflexivity|apply parse_exp_printed].
Qed.

Lemma exponent_part_head (r : list ascii) (x : Z) :
  exponent_part r x ->
  match r with [] => True | c :: _ => is_digit c = false /\ c <> "." end.
Proof. intros [[-> ->]| ->]; [exact I|]. split; [reflexivity|discriminate]. Qed.

Lemma parse_number_integer (ip r : list ascii) (x : Z) :
  digit_list ip -> ip <> [] -> exponent_part r x ->
  parse_number (ip ++ r) = Some (of_digits ip, x).
Proof.
  intros Hip Hne Hr. unfold parse_number.
  pose proof (exponent_part_head r x Hr) as Hh.
  rewrite span_digits_app; [|exact Hip|destruct r; tauto].
  assert (Hfp : (match r with "." :: r' => span_digits r' | _ => ([], r) end)
                = ([], r)).
  { destruct r as [|c r]; [reflexivity|]. destruct Hh as [_ Hdot].
    destruct (Ascii.eqb_spec c "."); [contradiction|].
    destruct c as [[] [] [] [] [] [] [] []]; try reflexivity; congruence. }
  rewrite Hfp. rewrite app_nil_r.
  destruct ip as [|c ip]; [congruence|].
  rewrite (exponent_part_parse r x Hr). simpl length.
  f_equal. f_equal. lia.
Qed.

Lemma parse_number_fraction (ip fd r : list ascii) (x : Z) :
  digit_list ip -> ip <> [] -> digit_list fd -> exponent_part r x ->
  parse_number (ip ++ "." :: fd ++ r)
    = Some (of_digits (ip ++ fd), (x - Z.of_nat (length fd))%Z).
Proof.
  intros Hip Hne Hfd Hr. unfold parse_number.
  pose proof (exponent_part_head r x Hr) as Hh.
  rewrite span_digits_app; [|exact Hip|reflexivity].
  rewrite span_digits_app; [|exact Hfd|destruct r; tauto].
  destruct (ip ++ fd) as [|c l] eqn:Hl.
  { destruct ip; [congruence|discriminate]. }
  rewrite (exponent_part_parse r x Hr). reflexivity.
Qed.

Lemma sign_chars_plain (s : bool) : plain (sign_chars s).
Proof. destruct s; repeat constructor. Qed.

(** Reading back a text made of an optional minus sign and a body without
    white space and underscores. *)
Lemma Decimal_of_chars_signed (s : bool) (body : list ascii) :
  plain body ->
  match lower body with
  | [] => True
  | c :: _ => c <> "-" /\ c <> "+"
  end ->
  Decimal_of_chars (sign_chars s ++ body) =
    match parse_number (lower body) with
    | Some (c, e) => Some (Fin s c e)
    | None => parse_special s (lower body)
    end.
Proof.
  intros Hplain Hhead. unfold Decimal_of_chars.
  assert (Hall : plain (sign_chars s ++ body)).
  { apply Forall_app. split; [apply sign_chars_plain|exact Hplain]. }
  rewrite (strip_plain _ Hall), (remove_underscores_plain _ Hall).
  assert (Hs : parse_sign (lower (sign_chars s ++ body)) = (s, lower body)).
  { unfold lower. rewrite map_app. fold (lower body).
    destruct s; [reflexivity|]. simpl.
    destruct (lower body) as [|c l]; [reflexivity|].
    destruct Hhead as [H1 H2]. unfold parse_sign.
    destruct c as [[] [] [] [] [] [] [] []]; try reflexivity; congruence. }
  rewrite Hs. reflexivity.
Qed.


Lemma printed_exponent (ld dp : Z) :
  let expo :=
    if (ld =? dp)%Z then []
    else "E" :: (if (0 <=? ld - dp)%Z then "+" else "-")
           :: digits_of (Z.to_N (Z.abs (ld - dp))) in
  plain expo /\ exponent_part (lower expo) (ld - dp).
Proof.
  simpl. destruct (Z.eqb_spec ld dp) as [->|Hne].
  - split; [constructor|]. left. split; [reflexivity|lia].
  - split.
    + constructor; [split; reflexivity|].
      constructor; [destruct (0 <=? ld - dp)%Z; split; reflexivity|].
      apply digit_list_plain, digits_of_all_digits.
    + right. unfold lower. simpl. f_equal.
      f_equal; [destruct (0 <=? ld - dp)%Z; reflexivity|].
      apply digit_list_lower, digits_of_all_digits.
Qed.

Lemma read_fraction (s : bool) (ip fd expo : list ascii) (x : Z) :
  digit_list ip -> ip <> [] -> digit_list fd ->
  plain expo -> exponent_part (lower expo) x ->
  Decimal_of_chars (sign_chars s ++ ip ++ ("." :: fd) ++ expo) =
    Some (Fin s (of_digits (ip ++ fd)) (x - Z.of_nat (length fd))).
Proof.
  intros Hip Hne Hfd Hplain Hexp.
  assert (Hlow : lower (ip ++ ("." :: fd) ++ expo)
                 = ip ++ "." :: fd ++ lower expo).
  { unfold lower. rewrite !map_app. simpl.
    fold (lower ip) (lower fd) (lower expo).
    rewrite !digit_list_lower by assumption. reflexivity. }
  rewrite Decimal_of_chars_signed.
  - rewrite Hlow, (parse_number_fraction ip fd _ x) by assumption.
    reflexivity.
  - apply Forall_app. split; [apply digit_list_plain, Hip|].
    apply Forall_app. split; [|exact Hplain].
    constructor; [split; reflexivity|apply digit_list_plain, Hfd].
  - rewrite Hlow. destruct Hip as [|c ip Hc _]; [congruence|]. simpl.
    split; intros ->; discriminate.
Qed.

Lemma read_integer (s : bool) (ip expo : list ascii) (x : Z) :
  digit_list ip -> ip <> [] ->
  plain expo -> exponent_part (lower expo) x ->
  Decimal_of_chars (sign_chars s ++ ip ++ [] ++ expo) =
    Some (Fin s (of_digits ip) x).
Proof.
  intros Hip Hne Hplain Hexp.
  assert (Hlow : lower (ip ++ [] ++ expo) = ip ++ lower expo).
  { unfold lower. rewrite !map_app. simpl.
    fold (lower ip) (lower expo).
    rewrite !digit_list_lower by assumption. reflexivity. }
  rewrite Decimal_of_chars_signed.
  - rewrite Hlow, (parse_number_integer ip _ x) by assumption.
    reflexivity.
  - apply Forall_app. split; [apply digit_list_plain, Hip|exact Hplain].
  - rewrite Hlow. destruct Hip as [|c ip Hc _]; [congruence|]. simpl.
    split; intros ->; discriminate.
Qed.

Lemma round_trip_chars (d : Decimal) :
  Decimal_of_chars (Decimal_chars d) = Some d.
Proof.
  destruct d as [s c e|s|s g p].
  - unfold Decimal_chars.
    pose proof (digits_of_all_digits c) as Hint.
    pose proof (digits_of_nonempty c) as Hne.
    pose proof (of_digits_of c) as Hval.
    set (int := digits_of c) in *.
    set (len := Z.of_nat (length int)).
    assert (Hlen : (1 <= len)%Z).
    { subst len. destruct int; [congruence|]. simpl length. lia. }
    set (dp := (if (e <=? 0) && (-6 <? e + len) then e + len else 1)%Z).
    assert (Hdp : ((e <= 0 /\ dp = e + len) \/ ((0 < e \/ e + len <= -6) /\ dp = 1))%Z).
    { subst dp. destruct (Z.leb_spec e 0); destruct (Z.ltb_spec (-6) (e + len));
        simpl; lia. }
    destruct (printed_exponent (e + len) dp) as [Hplain Hexp].
    simpl in Hplain, Hexp.
    destruct (Z.leb_spec dp 0) as [Hle|Hgt].
    + rewrite (read_fraction s ["0"] _ _ (e + len - dp));
        try assumption; try discriminate.
      * f_equal. f_equal.
        -- change (["0"] ++ ?l) with (repeat "0" 1 ++ l).
           rewrite !of_digits_zeros. exact Hval.
        -- rewrite length_app, repeat_length. fold len. lia.
      * repeat constructor.
      * apply Forall_app. split; [|exact Hint].
        induction (Z.to_nat (- dp)); simpl; constructor; auto.
    + destruct (Z.leb_spec len dp) as [Hle|Hlt].
      * replace (Z.to_nat (dp - len)) with 0%nat by lia. simpl repeat.
        rewrite app_nil_r.
        rewrite (read_integer s int _ (e + len - dp)); try assumption.
        f_equal. f_equal; [exact Hval|lia].
      * rewrite (read_fraction s _ _ _ (e + len - dp)); try assumption.
        -- rewrite take_drop. f_equal. f_equal; [exact Hval|].
           rewrite length_drop. fold len. lia.
        -- apply Forall_take, Hint.
        -- destruct int as [|a int']; [congruence|].
           destruct (Z.to_nat dp) eqn:Hn; [lia|]. discriminate.
        -- apply Forall_drop, Hint.
  - destruct s; reflexivity.
  - unfold Decimal_chars.
    set (digs := if (p =? 0)%N then [] else digits_of p).
    assert (Hdigs : digit_list digs).
    { subst digs. destruct (p =? 0)%N; [constructor|].
      apply digits_of_all_digits. }
    assert (Hval : of_digits digs = p).
    { subst digs. destruct (N.eqb_spec p 0) as [Hp|Hp].
      - rewrite Hp. reflexivity.
      - apply of_digits_of. }
    assert (Hspan : span_digits digs = (digs, [])).
    { rewrite <- (app_nil_r digs) at 1. apply span_digits_app; auto. }
    assert (Hlow : lower (chars (if g then "sNaN"%string else "NaN"%string)
                          ++ digs)
                   = chars (if g then "snan"%string else "nan"%string) ++ digs).
    { unfold lower. rewrite map_app. fold (lower digs).
      rewrite (digit_list_lower digs Hdigs). destruct g; reflexivity. }
    rewrite Decimal_of_chars_signed.
    + rewrite Hlow. destruct g; simpl.
      * unfold parse_special.
        rewrite !bool_decide_eq_false_2 by discriminate. simpl.
        rewrite Hspan, Hval. reflexivity.
      * unfold parse_special.
        rewrite !bool_decide_eq_false_2 by discriminate. simpl.
        rewrite Hspan, Hval. reflexivity.
    + apply Forall_app. split; [|apply digit_list_plain, Hdigs].
      destruct g; repeat constructor.
    + rewrite Hlow. destruct g; simpl; split; discriminate.
Qed.

(** [Decimal(str(d))] is [d], for every decimal [d]. *)
Lemma round_trip (d : Decimal) : Decimal_of_string (Decimal_str d) = Some d.
Proof.
  unfold Decimal_of_string, Decimal_str, chars, text.
  rewrite list_ascii_of_string_of_list_ascii. apply round_trip_chars.
Qed.

Lemma safe_decimal_of_Decimal (d : Decimal) : safe_decimal (VDec d) = Some d.
Proof. apply round_trip. Qed.

End RoundTrip.

(* ===================================================================== *)
(** ** Derived rows: evaluation of a formula *)
(* ===================================================================== *)

Section Formulas.

Implicit Types (self : Table) (func : formula).

(** A row depends on its raw period values only through what they parse to. *)
Lemma Row_init_parsed (n : string) (c l c' l' : value) :
  safe_decimal c = safe_decimal c' ->
  safe_decimal l = safe_decimal l' ->
  Row_init n c l = Row_init n c' l'.
Proof. unfold Row_init. intros -> ->. reflexivity. Qed.

Lemma Row_init_fields (n : string) (c l : value) (row : Row) :
  Row_init n c l = Ok row ->
  name row = n /\
  current_year row = safe_decimal c /\
  last_year row = safe_decimal l.
Proof.
  unfold Row_init.
  destruct (safe_decimal c) as [dc|], (safe_decimal l) as [dl|];
    try (intros [= <-]; auto).
  destruct (dec_sub dc dl) as [d|]; [simpl|discriminate].
  destruct (dec_ne dl (of_int 0)) as [nz|]; [simpl|discriminate].
  match goal with
  | |- context [Py.bind ?m _] => destruct m as [r|]; [simpl|discriminate]
  end.
  intros [= <-]. auto.
Qed.

(** The comprehension over the names yields the attribute of every source
    row, in order, when all of them resolve. *)
Lemma comprehension_resolved self (attr : Row -> option Decimal)
    (names : list string) (sources : list Row) :
  Forall2 (fun n r => get_row_by_name self n = Ok (Some r)) names sources ->
  comprehension (row_attr self attr) names = Ok (map attr sources).
Proof.
  induction 1 as [|n r names sources Hn _ IH]; [reflexivity|].
  simpl. unfold row_attr at 1. rewrite Hn. simpl. rewrite IH. reflexivity.
Qed.

(** A source row that does not resolve makes the comprehension raise. *)
Lemma comprehension_unresolved self (attr : Row -> option Decimal)
    (names : list string) (n : string) :
  In n names -> get_row_by_name self n = Ok None ->
  exists e, comprehension (row_attr self attr) names = Raise e.
Proof.
  induction names as [|m names IH]; intros Hin Hn; [destruct Hin|].
  simpl. unfold row_attr at 1.
  destruct Hin as [->|Hin]; [rewrite Hn; simpl; eauto|].
  destruct (get_row_by_name_total self m) as [[r|] ->]; simpl; eauto.
  destruct (IH Hin Hn) as [e ->]. simpl. eauto.
Qed.

Lemma try_block_resolved self (name : string) func (names : list string)
    (sources : list Row) (current last : Decimal) :
  Forall2 (fun n r => get_row_by_name self n = Ok (Some r)) names sources ->
  func (map current_year sources) = Ok current ->
  func (map last_year sources) = Ok last ->
  try_block self name func names = Row_init name (VDec current) (VDec last).
Proof.
  intros Hsrc Hc Hl. unfold try_block, get_values_from_lambda_tuple.
  rewrite !(comprehension_resolved _ _ _ _ Hsrc). simpl.
  rewrite Hc, Hl. reflexivity.
Qed.

Lemma try_block_name self (entry_name : string) func (names : list string)
    (row : Row) :
  try_block self entry_name func names = Ok row -> name row = entry_name.
Proof.
  unfold try_block.
  destruct (get_values_from_lambda_tuple self func names) as [[c l]|];
    [cbn [Py.bind]|discriminate].
  intros H. apply Row_init_fields in H. tauto.
Qed.

(** The loop never raises and appends exactly one row per entry, named after
    the entry, in the order of the entries. *)
Lemma generate_from_appends (entries : list (string * (formula * list string))) :
  forall self, exists self' new,
    generate_from entries self = Ok self' /\
    rows self' = rows self ++ new /\
    map name new = map fst entries.
Proof.
  induction entries as [|[entry_name [func names]] entries IH]; intros self.
  - exists self, []. rewrite app_nil_r. auto.
  - cbn [generate_from].
    pose proof (generate_one_cases self entry_name func names) as Hone.
    destruct (try_block self entry_name func names) as [row|e] eqn:Htry;
      rewrite Hone; cbn [Py.bind];
      match goal with
      | |- context [generate_from entries ?t] =>
          destruct (IH t) as (self' & new & -> & Hrows & Hnames)
      end.
    + exists self', (row :: new). split; [reflexivity|].
      rewrite Hrows. cbn [rows]. rewrite <- app_assoc. split; [reflexivity|].
      cbn [map fst]. rewrite Hnames, (try_block_name _ _ _ _ _ Htry).
      reflexivity.
    + exists self', (missing_row entry_name :: new). split; [reflexivity|].
      rewrite Hrows. cbn [rows]. rewrite <- app_assoc. split; [reflexivity|].
      cbn [map fst]. rewrite Hnames. reflexivity.
Qed.

(** Rows appended to the table, and names added to the index map, do not
    change what a name bound below the current length resolves to. *)
Lemma lookup_unchanged_by_appending self (extra : list Row)
    (dict' : gmap string (option nat)) (n : string) (i : nat) :
  row_name_index_dict self !! n = Some (Some i) ->
  dict' !! n = Some (Some i) ->
  (i < length (rows self))%nat ->
  get_row_by_name (mkTable (rows self ++ extra) dict') n
    = get_row_by_name self n.
Proof.
  intros Hd Hd' Hi. unfold get_row_by_name, dict_get. cbn [rows row_name_index_dict].
  rewrite Hd, Hd'. cbn [mjoin option_join]. rewrite length_app.
  destruct (Nat.leb_spec (length (rows self) + length extra) i); [lia|].
  destruct (Nat.leb_spec (length (rows self)) i); [lia|].
  unfold getitem. rewrite lookup_app_l by exact Hi. reflexivity.
Qed.

(** Hence a formula all of whose sources are bound below the current length
    is evaluated to the same result whatever has been appended. *)
Lemma try_block_unchanged_by_appending self (extra : list Row)
    (dict' : gmap string (option nat)) (name : string) func
    (names : list string) :
  Forall (fun n => exists i,
            row_name_index_dict self !! n = Some (Some i) /\
            dict' !! n = Some (Some i) /\
            (i < length (rows self))%nat) names ->
  try_block (mkTable (rows self ++ extra) dict') name func names
    = try_block self name func names.
Proof.
  intros Hnames. unfold try_block, get_values_from_lambda_tuple.
  assert (Hcomp : forall attr,
            comprehension
              (row_attr (mkTable (rows self ++ extra) dict') attr) names
            = comprehension (row_attr self attr) names).
  { intros attr. induction Hnames as [|n names (i & H1 & H2 & H3) _ IH];
      [reflexivity|].
    cbn [comprehension]. rewrite IH. unfold row_attr at 1 3.
    rewrite (lookup_unchanged_by_appending self extra dict' n i H1 H2 H3).
    reflexivity. }
  rewrite !Hcomp. reflexivity.
Qed.

End Formulas.

(** C2.  When all the source rows of a formula resolve and the formula
    returns on their current-period values and on their prior-period values
    (taken in the order of the names), the [try] block builds the row from
    these two results with the very constructor used for the input records:
    the row's period values are the two results, its difference and change
    ratio are those of any row whose raw values parse to these results, and
    it is the row appended.  In particular, with current assets (100, 80)
    and current liabilities (50, 40), the "Current Ratio" row appended is
    (2, 2, 0, 0). *)
Theorem derived_rows_apply_the_formula :
  (forall (self : Table) (name : string) (func : formula)
          (names : list string) (sources : list Row)
          (current last : Decimal),
     Forall2 (fun n r => get_row_by_name self n = Ok (Some r)) names sources ->
     func (map current_year sources) = Ok current ->
     func (map last_year sources) = Ok last ->
     try_block self name func names
       = Row_init name (VDec current) (VDec last) /\
     (forall c l,
        safe_decimal c = Some current -> safe_decimal l = Some last ->
        Row_init name c l = Row_init name (VDec current) (VDec last)) /\
     (forall row,
        Row_init name (VDec current) (VDec last) = Ok row ->
        current_year row = Some current /\
        last_year row = Some last /\
        exists self',
          generate_one self (name, (func, names)) = Ok self' /\
          rows self' = rows self ++ [row])) /\
  (forall (self : Table) (assets liabilities : Row) (entry : _),
     ADDITIONAL_ROWS !! 0%nat = Some entry ->
     get_row_by_name self "current_asset" = Ok (Some assets) ->
     current_year assets = Decimal_of_string "100" ->
     last_year assets = Decimal_of_string "80" ->
     get_row_by_name self "current_liability" = Ok (Some liabilities) ->
     current_year liabilities = Decimal_of_string "50" ->
     last_year liabilities = Decimal_of_string "40" ->
     exists self',
       generate_one self entry = Ok self' /\
       rows self' =
         rows self ++
           [mkRow "Current Ratio" (Some (Fin false 2 0)) (Some (Fin false 2 0))
              (Some (Fin false 0 0)) (Some (Fin false 0 0))]).
Proof.
  split.
  - intros self name func names sources current last Hsrc Hc Hl.
    pose proof (try_block_resolved self name func names sources current last
                  Hsrc Hc Hl) as Htry.
    split; [exact Htry|]. split.
    + intros c l Hpc Hpl. apply Row_init_parsed;
        rewrite safe_decimal_of_Decimal; assumption.
    + intros row Hrow.
      destruct (Row_init_fields _ _ _ _ Hrow) as (_ & Hcur & Hlast).
      rewrite safe_decimal_of_Decimal in Hcur, Hlast.
      split; [exact Hcur|]. split; [exact Hlast|].
      pose proof (generate_one_cases self name func names) as Hgen.
      rewrite Htry, Hrow in Hgen. eexists. split; [exact Hgen|reflexivity].
  - intros self assets liabilities entry [= <-] Ha Hac Hal Hl Hlc Hll.
    pose proof (generate_one_cases self "Current Ratio"
                  (fun args => match args with
                               | [current_asset; current_liability] =>
                                   truediv current_asset current_liability
                               | _ => Raise TypeError
                               end)
                  ["current_asset"; "current_liability"]) as Hgen.
    rewrite (try_block_resolved self _ _ _ [assets; liabilities]
               (Fin false 2 0) (Fin false 2 0)) in Hgen.
    + change (Row_init "Current Ratio" (VDec (Fin false 2 0))
                (VDec (Fin false 2 0)))
        with (Ok (mkRow "Current Ratio" (Some (Fin false 2 0))
                    (Some (Fin false 2 0)) (Some (Fin false 0 0))
                    (Some (Fin false 0 0)))) in Hgen.
      eexists. split; [exact Hgen|reflexivity].
    + repeat constructor; assumption.
    + simpl. rewrite Hac, Hlc. reflexivity.
    + simpl. rewrite Hal, Hll. reflexivity.
Qed.

Lemma derived_rows_apply_the_formula_witness :
  exists entry assets liabilities,
    (ADDITIONAL_ROWS !! 0%nat = Some entry /\
     get_row_by_name sample_table "current_asset" = Ok (Some assets) /\
     current_year assets = Decimal_of_string "100" /\
     last_year assets = Decimal_of_string "80" /\
     get_row_by_name sample_table "current_liability" = Ok (Some liabilities) /\
     current_year liabilities = Decimal_of_string "50" /\
     last_year liabilities = Decimal_of_string "40") /\
    exists self',
      generate_one sample_table entry = Ok self' /\
      rows self' =
        rows sample_table ++
          [mkRow "Current Ratio" (Some (Fin false 2 0)) (Some (Fin false 2 0))
             (Some (Fin false 0 0)) (Some (Fin false 0 0))].
Proof.
  eexists _, _, _. split.
  - split; [reflexivity|].
    split; [vm_compute; reflexivity|]. split; [reflexivity|].
    split; [reflexivity|].
    split; [vm_compute; reflexivity|]. split; reflexivity.
  - eapply (proj2 derived_rows_apply_the_formula sample_table);
      [reflexivity
      |vm_compute; reflexivity|reflexivity|reflexivity
      |vm_compute; reflexivity|reflexivity|reflexivity].
Defined.

(* ===================================================================== *)
(** ** Formatting *)
(* ===================================================================== *)

Section Formatting.

Local Open Scope char_scope.

Local Abbreviation digit_list l := (Forall (fun c => is_digit c = true) l).
Local Abbreviation dot_free l := (Forall (fun c => is_dot c = false) l).

(** Both alternatives of the pattern begin with a dot. *)
Lemma no_match_without_dot (b : option ascii) (c : ascii) (l : list ascii) :
  is_dot c = false -> match_at tail_dot_rgx b (c :: l) = None.
Proof. intros H. unfold match_at, tail_dot_rgx. simpl. rewrite H. reflexivity. Qed.

Lemma sub_skips_dot_free (ip : list ascii) :
  dot_free ip ->
  forall fuel b tail,
    (length ip <= fuel)%nat ->
    exists b',
      sub_group_from fuel tail_dot_rgx 2 b (ip ++ tail) =
        ip ++ sub_group_from (fuel - length ip) tail_dot_rgx 2 b' tail.
Proof.
  induction 1 as [|c ip Hc Hip IH]; intros fuel b tail Hfuel.
  - exists b. simpl. rewrite Nat.sub_0_r. reflexivity.
  - destruct fuel as [|fuel]; [simpl in Hfuel; lia|].
    simpl in Hfuel.
    destruct (IH fuel (Some c) tail ltac:(lia)) as [b' Hb'].
    exists b'. 
    change (sub_group_from (S fuel) tail_dot_rgx 2 b ((c :: ip) ++ tail))
      with (match match_at tail_dot_rgx b (c :: ip ++ tail) with
            | Some p => default [] (capture 2 (caps p)) ++ sub_group_from fuel tail_dot_rgx 2 (prev_char p) (rest p)
            | None => c :: sub_group_from fuel tail_dot_rgx 2 (Some c) (ip ++ tail)
            end).
    rewrite no_match_without_dot by exact Hc.
    rewrite Hb'. reflexivity.
Qed.

Lemma is_digit_cases (c : ascii) :
  is_digit c = true ->
  In c ["0"; "1"; "2"; "3"; "4"; "5"; "6"; "7"; "8"; "9"].
Proof.
  destruct c as [[] [] [] [] [] [] [] []]; vm_compute; intros H;
    try discriminate; tauto.
Qed.

Lemma sub_two_digits (fuel : nat) (b : option ascii) (d1 d2 : ascii) :
  is_digit d1 = true -> is_digit d2 = true ->
  sub_group_from (S (S (S (S fuel)))) tail_dot_rgx 2 b ["."; d1; d2]
    = strip_fraction d1 d2.
Proof.
  intros H1%is_digit_cases H2%is_digit_cases.
  simpl in H1, H2.
  destruct fuel;
  repeat (destruct H1 as [<-|H1]; [|]);
  try (destruct H1);
  repeat (destruct H2 as [<-|H2]; [|]);
  try (destruct H2); vm_compute; reflexivity.
Qed.

Lemma is_digit_not_dot (c : ascii) : is_digit c = true -> is_dot c = false.
Proof.
  intros H%is_digit_cases. simpl in H.
  repeat (destruct H as [<-|H]; [reflexivity|]). destruct H.
Qed.

Lemma group3_rev_preserves (P : ascii -> Prop) :
  P "," -> forall n l, (length l <= n)%nat -> Forall P l -> Forall P (group3_rev l).
Proof.
  intros Hsep. induction n as [|n IH]; intros l Hlen Hl.
  - destruct l; [constructor|simpl in Hlen; lia].
  - destruct l as [|a [|b [|c [|d r]]]]; try exact Hl.
    change (group3_rev (a :: b :: c :: d :: r))
      with (a :: b :: c :: "," :: group3_rev (d :: r)).
    inversion Hl as [|? ? Ha Hl1]; subst.
    inversion Hl1 as [|? ? Hb Hl2]; subst.
    inversion Hl2 as [|? ? Hc Hl3]; subst.
    repeat (constructor; [assumption|]).
    apply IH; [simpl in *; lia|exact Hl3].
Qed.

Lemma insert_thousands_sep_dot_free (l : list ascii) :
  digit_list l -> dot_free (insert_thousands_sep l).
Proof.
  intros H. unfold insert_thousands_sep. apply Forall_rev.
  apply (group3_rev_preserves (fun c => is_dot c = false) eq_refl
           (length (rev l))); [lia|].
  apply Forall_rev. eapply Forall_impl; [exact H|].
  intros c. apply is_digit_not_dot.
Qed.

(** The integer part and the two fractional digits of a coefficient at
    exponent -2. *)
Lemma split_two_digits (q : N) :
  let int := digits_of q in
  (if (length int <? 2)%nat then (["0"], repeat "0" (2 - length int) ++ int)
   else (match take (length int - 2) int with [] => ["0"] | ip => ip end,
         drop (length int - 2) int))
  = (digits_of (q / 100),
     [digit_char (q / 10 mod 10); digit_char (q mod 10)]).
Proof.
  simpl.
  destruct (N.ltb_spec q 10) as [Hq|Hq].
  - rewrite (digits_of_eq q). apply N.ltb_lt in Hq as Hb. rewrite Hb. simpl.
    rewrite (N.div_small q 100), (N.div_small q 10), (N.mod_small q 10) by lia.
    reflexivity.
  - rewrite (digits_of_eq q). apply N.ltb_ge in Hq as Hb. rewrite Hb.
    assert (Hdiv : (q / 10 / 10 = q / 100)%N).
    { rewrite N.Div0.div_div. reflexivity. }
    destruct (N.ltb_spec (q / 10) 10) as [Hq1|Hq1].
    + rewrite (digits_of_eq (q / 10)). apply N.ltb_lt in Hq1 as Hb1.
      rewrite Hb1. simpl.
      rewrite <- Hdiv, (N.div_small (q / 10) 10), (N.mod_small (q / 10) 10) by lia.
      reflexivity.
    + rewrite (digits_of_eq (q / 10)). apply N.ltb_ge in Hq1 as Hb1.
      rewrite Hb1, Hdiv.
      pose proof (digits_of_nonempty (q / 100)) as Hne.
      set (hi := digits_of (q / 100)) in *.
      rewrite <- app_assoc. simpl app.
      rewrite length_app. simpl length.
      destruct (Nat.ltb_spec (length hi + 2) 2) as [|_]; [lia|].
      replace (length hi + 2 - 2)%nat with (length hi) by lia.
      rewrite take_app_length, drop_app_length.
      destruct hi; [congruence|reflexivity].
Qed.

Lemma sign_chars_dot_free (s : bool) : dot_free (sign_chars s).
Proof. destruct s; repeat constructor. Qed.

Lemma strip_after_dot_free (pre : list ascii) (d1 d2 : ascii) :
  dot_free pre -> is_digit d1 = true -> is_digit d2 = true ->
  sub_group tail_dot_rgx 2 (pre ++ ["."; d1; d2]) = pre ++ strip_fraction d1 d2.
Proof.
  intros Hpre H1 H2. unfold sub_group.
  destruct (sub_skips_dot_free pre Hpre (S (length (pre ++ ["."; d1; d2])))
              None ["."; d1; d2]) as [b' ->].
  { rewrite length_app. lia. }
  rewrite length_app. simpl length.
  replace (S (length pre + 3) - length pre)%nat with 4%nat by lia.
  rewrite sub_two_digits by assumption. reflexivity.
Qed.

(** C9.  Without the percent option a number is rendered from its
    coefficient rounded (half to even) at two fractional digits: the sign,
    the digits of the integer part, grouped by threes unless grouping is
    disabled, a decimal point and the two fractional digits.  The trailing
    fractional zeros are then dropped, and the decimal point with them only
    when both digits are zero; the sign, the integer digits and the grouping
    separators are left as they are.  In particular 1200.50, 1200.00 and
    1200.10 are rendered "1,200.5", "1,200" and "1,200.1". *)
Theorem fixed_point_formatting :
  (forall (s : bool) (c : N) (e : Z) (with_commas : bool),
     let q := rescale2 c e in
     let int_part :=
       if with_commas then insert_thousands_sep (digits_of (q / 100))
       else digits_of (q / 100) in
     let d1 := digit_char (q / 10 mod 10) in
     let d2 := digit_char (q mod 10) in
     Decimal_format (Fin s c e) false with_commas
       = sign_chars s ++ int_part ++ ["."; d1; d2] /\
     format_decimal (Some (Fin s c e)) false with_commas
       = text (sign_chars s ++ int_part ++ strip_fraction d1 d2)) /\
  format_decimal (Decimal_of_string "1200.50") false true = "1,200.5"%string /\
  format_decimal (Decimal_of_string "1200.00") false true = "1,200"%string /\
  format_decimal (Decimal_of_string "1200.10") false true = "1,200.1"%string.
Proof.
  split; [|repeat split; vm_compute; reflexivity].
  intros s c e with_commas q int_part d1 d2.
  assert (Hfmt : Decimal_format (Fin s c e) false with_commas
                 = sign_chars s ++ int_part ++ ["."; d1; d2]).
  { unfold Decimal_format. fold q. rewrite split_two_digits.
    rewrite app_nil_r. reflexivity. }
  split; [exact Hfmt|].
  unfold format_decimal, remove_tail_dot_zeros. rewrite Hfmt.
  unfold chars, text. rewrite list_ascii_of_string_of_list_ascii.
  rewrite (app_assoc (sign_chars s)), strip_after_dot_free.
  - rewrite <- app_assoc. reflexivity.
  - apply Forall_app. split; [apply sign_chars_dot_free|].
    subst int_part. destruct with_commas.
    + apply insert_thousands_sep_dot_free, digits_of_all_digits.
    + eapply Forall_impl; [apply digits_of_all_digits|].
      intros x. apply is_digit_not_dot.
  - apply digit_char_is_digit, N.mod_lt. discriminate.
  - apply digit_char_is_digit, N.mod_lt. discriminate.
Qed.

End Formatting.

(* ===================================================================== *)
(** ** Arithmetic on ordinary numbers returns *)
(* ===================================================================== *)

Section Ordinary.

Local Open Scope Z_scope.

Lemma round_half_even_le (c k : N) :
  (round_half_even c k <= c / 10 ^ k + 1)%N.
Proof.
  unfold round_half_even.
  destruct (2 * (c mod 10 ^ k) ?= 10 ^ k)%N; [destruct (N.odd _)| |]; lia.
Qed.

(** When rounding away [j] digits carries into one digit too many, dropping
    the last digit leaves the expected number of digits. *)
Lemma round_carry_digits (c j m : N) :
  (ndigits c = j + m)%N -> (1 <= m)%N ->
  (ndigits (round_half_even c j / 10) <= m)%N.
Proof.
  intros Hd Hm.
  pose proof (ndigits_upper c) as Hup. rewrite Hd, N.pow_add_r in Hup.
  assert (Hq : (c / 10 ^ j < 10 ^ m)%N).
  { apply N.Div0.div_lt_upper_bound. exact Hup. }
  pose proof (round_half_even_le c j) as Hr.
  apply ndigits_le; [exact Hm|].
  apply N.Div0.div_lt_upper_bound.
  set (P := (10 ^ m)%N) in *. lia.
Qed.

(** Rounding to the context returns on every number whose digits and
    exponent stay clear of the exponent limits; the result has at most
    [prec] digits and an exponent that has not decreased. *)
Lemma dec_fix_returns (s : bool) (c : N) (e : Z) (k : Z) :
  Z.of_N (ndigits c) <= k -> Etiny <= e -> k + e <= Emax ->
  exists c' e',
    dec_fix (Fin s c e) = Ok (Fin s c' e') /\
    Z.of_N (ndigits c') <= prec /\ (c = 0%N -> c' = 0%N) /\
    e <= e' <= Z.max e (k + e - 27).
Proof.
  intros Hk Hlo Hhi. unfold dec_fix.
  pose proof (ndigits_pos c) as Hpos.
  unfold Etiny, Etop, Emax, Emin, prec in *.
  destruct (N.eqb_spec c 0) as [->|Hc].
  { exists 0%N, e. rewrite Z.max_l, Z.min_l by lia.
    split; [reflexivity|]. split; [vm_compute; discriminate|]. split; lia. }
  destruct (Z.ltb_spec (999999 - 28 + 1) (Z.of_N (ndigits c) + e - 28)); [lia|].
  destruct (Z.ltb_spec e (Z.max (Z.of_N (ndigits c) + e - 28) (-999999 - 28 + 1)))
    as [Hround|Hkeep].
  - rewrite Z.max_l in * by lia.
    replace (Z.of_N (ndigits c) + e - 28 - e) with (Z.of_N (ndigits c) - 28) by lia.
    set (j := Z.to_N (Z.of_N (ndigits c) - 28)).
    assert (Hj : (ndigits c = j + 28)%N) by lia.
    pose proof (round_carry_digits c j 28 Hj ltac:(lia)) as Hcarry.
    set (c1 := round_half_even c j) in *.
    destruct (Z.ltb_spec 28 (Z.of_N (ndigits c1))) as [Hbig|Hsmall].
    + destruct (Z.ltb_spec (999999 - 28 + 1) (Z.of_N (ndigits c) + e - 28 + 1));
        [lia|].
      eexists _, _. split; [reflexivity|]. split; [lia|split; [congruence|lia]].
    + destruct (Z.ltb_spec (999999 - 28 + 1) (Z.of_N (ndigits c) + e - 28));
        [lia|].
      eexists _, _. split; [reflexivity|]. split; [lia|split; [congruence|lia]].
  - exists c, e. split; [reflexivity|]. split; [lia|split; [congruence|lia]].
Qed.

Lemma ndigits_mono (a b : N) : (a <= b)%N -> (ndigits a <= ndigits b)%N.
Proof.
  intros H. apply ndigits_le; [apply ndigits_pos|].
  pose proof (ndigits_upper b). lia.
Qed.

Lemma ndigits_succ (a : N) : (ndigits (a + 1) <= ndigits a + 1)%N.
Proof.
  apply ndigits_le; [lia|].
  pose proof (ndigits_upper a) as H. rewrite N.pow_add_r.
  set (P := (10 ^ ndigits a)%N) in *. change (10 ^ 1)%N with 10%N. lia.
Qed.

Lemma ndigits_mul (a b : N) : (ndigits (a * b) <= ndigits a + ndigits b)%N.
Proof.
  apply ndigits_le; [pose proof (ndigits_pos a); lia|].
  rewrite N.pow_add_r.
  pose proof (ndigits_upper a). pose proof (ndigits_upper b).
  apply N.mul_lt_mono; assumption.
Qed.

(** Digits of a quotient [a * 10^sh / b]. *)
Lemma ndigits_quotient (a b sh : N) :
  (0 < b)%N -> (ndigits b <= ndigits a + sh)%N ->
  (ndigits (a * 10 ^ sh / b) <= ndigits a + sh + 1 - ndigits b)%N.
Proof.
  intros Hb Hle.
  pose proof (ndigits_pos b) as Hpb.
  apply ndigits_le; [lia|].
  apply N.Div0.div_lt_upper_bound.
  pose proof (ndigits_upper a) as Ha.
  pose proof (ndigits_lower b Hb) as Hlow.
  set (x := (ndigits a + sh + 1 - ndigits b)%N).
  assert (Hsplit : (10 ^ ndigits a * 10 ^ sh = 10 ^ (ndigits b - 1) * 10 ^ x)%N).
  { rewrite <- !N.pow_add_r. f_equal. lia. }
  eapply N.lt_le_trans with (m := (10 ^ ndigits a * 10 ^ sh)%N).
  - apply N.mul_lt_mono_pos_r; [|exact Ha].
    apply N.neq_0_lt_0, N.pow_nonzero. discriminate.
  - rewrite Hsplit. apply N.mul_le_mono_r. exact Hlow.
Qed.

(** A magnitude below [10^n] has at most [n] digits. *)
Lemma ndigits_of_Z (v n : Z) :
  1 <= n -> 0 <= v < 10 ^ n -> Z.of_N (ndigits (Z.to_N v)) <= n.
Proof.
  intros Hn [Hv0 Hv].
  assert (H : (ndigits (Z.to_N v) <= Z.to_N n)%N); [|lia].
  apply ndigits_le; [lia|].
  apply N2Z.inj_lt. rewrite N2Z.inj_pow, !Z2N.id by lia. exact Hv.
Qed.

Lemma scaled_bound (c : N) (d n : Z) :
  0 <= d -> Z.of_N (ndigits c) + d <= n -> Z.of_N c * 10 ^ d < 10 ^ n.
Proof.
  intros Hd Hn.
  pose proof (ndigits_upper c) as Hup.
  apply N2Z.inj_lt in Hup. rewrite N2Z.inj_pow in Hup.
  change (Z.of_N 10) with 10 in Hup.
  assert (Hp : 0 < 10 ^ d) by (apply Z.pow_pos_nonneg; lia).
  eapply Z.lt_le_trans with (m := 10 ^ Z.of_N (ndigits c) * 10 ^ d).
  - apply Z.mul_lt_mono_pos_r; assumption.
  - rewrite <- Z.pow_add_r by lia. apply Z.pow_le_mono_r; lia.
Qed.

(** Addition of two ordinary numbers returns. *)
Lemma dec_add_returns (s1 : bool) (c1 : N) (e1 : Z) (s2 : bool) (c2 : N) (e2 : Z) :
  Z.of_N (ndigits c1) <= prec -> Z.of_N (ndigits c2) <= prec ->
  -400000 <= e1 <= 400000 -> -400000 <= e2 <= 400000 ->
  exists s c e,
    dec_add (Fin s1 c1 e1) (Fin s2 c2 e2) = Ok (Fin s c e) /\
    Z.of_N (ndigits c) <= prec /\
    Z.min e1 e2 <= e <= Z.max e1 e2 + 2.
Proof.
  intros H1 H2 He1 He2. unfold dec_add. simpl check_nans. cbv iota beta.
  unfold prec in *.
  set (e := Z.min e1 e2).
  set (v := signed s1 c1 * 10 ^ (e1 - e) + signed s2 c2 * 10 ^ (e2 - e)).
  assert (Hzero : forall s, exists c' e',
            dec_fix (Fin s 0 e) = Ok (Fin s c' e') /\
            Z.of_N (ndigits c') <= 28 /\ e <= e' <= Z.max e1 e2 + 2).
  { intros s. destruct (dec_fix_returns s 0 e 1) as (c' & e' & Hf & Hd & _ & He);
      try (unfold Etiny, Emax, Emin, prec; lia).
    - vm_compute. discriminate.
    - exists c', e'. repeat split; try assumption; lia. }
  destruct ((c1 =? 0)%N && (c2 =? 0)%N).
  { destruct (Hzero (s1 && s2)) as (c' & e' & ?). eauto. }
  destruct (Z.eqb_spec v 0) as [Hv|Hv].
  { destruct (Hzero false) as (c' & e' & ?). eauto. }
  assert (Habs : Z.abs v < 10 ^ (29 + (Z.max e1 e2 - e))).
  { assert (Hb1 : Z.of_N c1 * 10 ^ (e1 - e) < 10 ^ (28 + (Z.max e1 e2 - e)))
      by (apply scaled_bound; lia).
    assert (Hb2 : Z.of_N c2 * 10 ^ (e2 - e) < 10 ^ (28 + (Z.max e1 e2 - e)))
      by (apply scaled_bound; lia).
    assert (Hp1 : 0 < 10 ^ (e1 - e)) by (apply Z.pow_pos_nonneg; lia).
    assert (Hp2 : 0 < 10 ^ (e2 - e)) by (apply Z.pow_pos_nonneg; lia).
    replace (29 + (Z.max e1 e2 - e)) with (Z.succ (28 + (Z.max e1 e2 - e))) by lia.
    rewrite Z.pow_succ_r by lia.
    subst v. unfold signed.
    set (P := 10 ^ (28 + (Z.max e1 e2 - e))) in *.
    set (A := Z.of_N c1 * 10 ^ (e1 - e)) in *.
    set (B := Z.of_N c2 * 10 ^ (e2 - e)) in *.
    assert (0 <= A) by (subst A; nia).
    assert (0 <= B) by (subst B; nia).
    destruct s1, s2; fold A B;
      rewrite ?Z.mul_opp_l; fold A B; lia. }
  destruct (dec_fix_returns (v <? 0) (Z.to_N (Z.abs v)) e
              (29 + (Z.max e1 e2 - e))) as (c' & e' & Hf & Hd & _ & He).
  - apply ndigits_of_Z; lia.
  - unfold Etiny, Emin, prec. lia.
  - unfold Emax. lia.
  - exists (v <? 0), c', e'. split; [exact Hf|]. split; [exact Hd|]. lia.
Qed.

(** Multiplication of two ordinary numbers returns a number. *)
Lemma dec_mul_returns (s1 : bool) (c1 : N) (e1 : Z) (s2 : bool) (c2 : N) (e2 : Z) :
  Z.of_N (ndigits c1) <= prec -> Z.of_N (ndigits c2) <= prec ->
  -400000 <= e1 <= 400000 -> -400000 <= e2 <= 400000 ->
  exists c e,
    dec_mul (Fin s1 c1 e1) (Fin s2 c2 e2) = Ok (Fin (xorb s1 s2) c e).
Proof.
  intros H1 H2 He1 He2. unfold dec_mul. simpl check_nans. cbv iota beta.
  unfold prec in *.
  pose proof (ndigits_mul c1 c2) as Hm.
  destruct (dec_fix_returns (xorb s1 s2) (c1 * c2)%N (e1 + e2) 56)
    as (c & e & Hf & _); [lia|unfold Etiny, Emin, prec; lia|unfold Emax; lia|].
  eauto.
Qed.

Lemma strip_zeros_bounds (fuel : nat) : forall coeff exp ideal,
  let '(c, e) := strip_zeros fuel coeff exp ideal in
  (c <= coeff)%N /\ exp <= e <= Z.max exp ideal.
Proof.
  induction fuel as [|fuel IH]; intros coeff exp ideal; simpl; [lia|].
  destruct (Z.ltb_spec exp ideal) as [Hlt|Hge]; simpl; [|lia].
  destruct (coeff mod 10 =? 0)%N; [|lia].
  specialize (IH (coeff / 10)%N (exp + 1) ideal).
  destruct (strip_zeros fuel (coeff / 10) (exp + 1) ideal) as [c e].
  pose proof (N.Div0.div_le_upper_bound coeff 10 coeff ltac:(lia)).
  lia.
Qed.

(** Division of a number of at most [prec] digits by an ordinary non-zero
    number returns. *)
Lemma dec_div_returns (s1 : bool) (c1 : N) (e1 : Z) (s2 : bool) (c2 : N) (e2 : Z) :
  Z.of_N (ndigits c1) <= prec -> Z.of_N (ndigits c2) <= prec ->
  -400000 <= e1 <= 400002 -> -400000 <= e2 <= 400000 ->
  c2 <> 0%N ->
  exists c e, dec_div (Fin s1 c1 e1) (Fin s2 c2 e2) = Ok (Fin (xorb s1 s2) c e).
Proof.
  intros H1 H2 He1 He2 Hnz. unfold dec_div. simpl check_nans. cbv iota beta.
  unfold prec in *.
  destruct (N.eqb_spec c2 0) as [|_]; [contradiction|].
  destruct (N.eqb_spec c1 0) as [Hz|Hc1].
  { destruct (dec_fix_returns (xorb s1 s2) 0 (e1 - e2) 1)
      as (c & e & Hf & _);
      [vm_compute; discriminate|unfold Etiny, Emin, prec; lia|unfold Emax; lia|].
    eauto. }
  pose proof (ndigits_pos c1) as Hp1. pose proof (ndigits_pos c2) as Hp2.
  set (shift := Z.of_N (ndigits c2) - Z.of_N (ndigits c1) + 28 + 1).
  destruct (Z.leb_spec 0 shift) as [_|Hneg]; [|lia].
  assert (Hq : (ndigits (c1 * 10 ^ Z.to_N shift / c2) <= 30)%N).
  { etransitivity; [apply ndigits_quotient; lia|]. lia. }
  unfold N.div in Hq.
  destruct (N.div_eucl (c1 * 10 ^ Z.to_N shift) c2) as [coeff remainder].
  simpl in Hq.
  destruct (remainder =? 0)%N.
  - pose proof (strip_zeros_bounds
                  (Z.to_nat (e1 - e2 - (e1 - e2 - shift))) coeff
                  (e1 - e2 - shift) (e1 - e2)) as Hs.
    destruct (strip_zeros _ coeff (e1 - e2 - shift) (e1 - e2)) as [c' e'].
    destruct Hs as [Hc' He'].
    apply ndigits_mono in Hc'.
    destruct (dec_fix_returns (xorb s1 s2) c' e' 31)
      as (c & e & Hf & _);
      [lia|unfold Etiny, Emin, prec; lia|unfold Emax; lia|].
    eauto.
  - assert (Hc' : (ndigits (if (coeff mod 5 =? 0)%N then coeff + 1 else coeff)
                   <= 31)%N).
    { destruct (coeff mod 5 =? 0)%N; [|lia].
      pose proof (ndigits_succ coeff). lia. }
    destruct (dec_fix_returns (xorb s1 s2)
                (if (coeff mod 5 =? 0)%N then (coeff + 1)%N else coeff)
                (e1 - e2 - shift) 31)
      as (c & e & Hf & _);
      [lia|unfold Etiny, Emin, prec; lia|unfold Emax; lia|].
    eauto.
Qed.

Lemma ne_zero_finite (s : bool) (c : N) (e : Z) :
  dec_ne (Fin s c e) (of_int 0) = Ok (negb (c =? 0)%N).
Proof.
  unfold dec_ne, dec_eq, dec_cmp, of_int. simpl. rewrite Z.mul_0_l.
  assert (Hp : 0 < 10 ^ (e - Z.min e 0)) by (apply Z.pow_pos_nonneg; lia).
  destruct (N.eqb_spec c 0) as [->|Hc].
  - destruct s; simpl; reflexivity.
  - destruct (Z.compare_spec (signed s c * 10 ^ (e - Z.min e 0)) 0) as [H|H|H];
      try reflexivity.
    exfalso. unfold signed in H. destruct s; nia.
Qed.

(** A row is built from any two ordinary numbers. *)
Lemma Row_init_returns (n : string) (vc vl : value) (c l : Decimal) :
  safe_decimal vc = Some c -> safe_decimal vl = Some l ->
  ordinary c -> ordinary l ->
  exists row, Row_init n vc vl = Ok row.
Proof.
  intros Hc Hl Oc Ol. unfold Row_init. rewrite Hc, Hl.
  destruct c as [s1 c1 e1| |]; try contradiction.
  destruct l as [s2 c2 e2| |]; try contradiction.
  destruct Oc as [Hd1 He1], Ol as [Hd2 He2].
  unfold dec_sub. simpl check_nans. cbv iota beta. simpl copy_negate.
  destruct (dec_add_returns s1 c1 e1 (negb s2) c2 e2 Hd1 Hd2 He1 He2)
    as (sd & cd & ed & Hsub & Hdd & Hed).
  rewrite Hsub. cbn [Py.bind]. rewrite ne_zero_finite. cbn [Py.bind].
  destruct (N.eqb_spec c2 0) as [Hz|Hnz]; cbn [negb Py.bind]; [eauto|].
  destruct (dec_mul_returns s1 c1 e1 s2 c2 e2 Hd1 Hd2 He1 He2)
    as (cm & em & ->). cbn [Py.bind].
  unfold dec_ge. cbn [is_nan orb Py.bind].
  destruct (match dec_cmp (Fin (xorb s1 s2) cm em) (of_int 0) with
            | Lt => false | _ => true end); cbn [Py.bind]; [|eauto].
  destruct (dec_div_returns sd cd ed s2 c2 e2 Hdd Hd2 ltac:(lia) He2 Hnz)
    as (cq & eq & ->). cbn. eauto.
Qed.

Lemma round_half_even_ge (c k : N) : (c / 10 ^ k <= round_half_even c k)%N.
Proof.
  unfold round_half_even.
  destruct (2 * (c mod 10 ^ k) ?= 10 ^ k)%N; [destruct (N.odd _)| |]; lia.
Qed.

(** Rounding to the context keeps a number that is not subnormal away from
    zero. *)
Lemma dec_fix_nonzero (s : bool) (c : N) (e : Z) (d : Decimal) :
  c <> 0%N -> Etiny <= Z.of_N (ndigits c) + e - prec ->
  dec_fix (Fin s c e) = Ok d ->
  exists c' e', d = Fin s c' e' /\ c' <> 0%N.
Proof.
  intros Hc Hsub. unfold dec_fix.
  destruct (N.eqb_spec c 0) as [|_]; [contradiction|].
  destruct (Etop <? Z.of_N (ndigits c) + e - prec); [discriminate|].
  rewrite Z.max_l by exact Hsub.
  destruct (Z.ltb_spec e (Z.of_N (ndigits c) + e - prec)) as [Hround|Hkeep].
  - unfold prec in *.
    set (j := Z.to_N (Z.of_N (ndigits c) + e - 28 - e)).
    assert (Hj : (ndigits c - 1 = j + 27)%N) by lia.
    assert (Hlow : (10 ^ j * 10 <= c)%N).
    { pose proof (ndigits_lower c ltac:(lia)) as Hl.
      rewrite Hj, N.pow_add_r in Hl.
      etransitivity; [|exact Hl]. apply N.mul_le_mono_l.
      change 10%N with (10 ^ 1)%N at 1. apply N.pow_le_mono_r; lia. }
    assert (Hq : (10 <= c / 10 ^ j)%N).
    { apply N.div_le_lower_bound; [apply N.pow_nonzero; discriminate|exact Hlow]. }
    pose proof (round_half_even_ge c j) as Hr.
    set (c1 := round_half_even c j) in *.
    assert (Hc1 : (1 <= c1 / 10)%N).
    { apply N.div_le_lower_bound; lia. }
    destruct (28 <? Z.of_N (ndigits c1)).
    + destruct (Etop <? _); [discriminate|]. intros [= <-].
      eexists _, _. split; [reflexivity|lia].
    + destruct (Etop <? _); [discriminate|]. intros [= <-].
      eexists _, _. split; [reflexivity|lia].
  - intros [= <-]. eauto.
Qed.

(** Comparing a number with zero looks at its sign and digits only. *)
Lemma cmp_zero_finite (s : bool) (c : N) (e : Z) :
  dec_cmp (Fin s c e) (of_int 0) = (signed s c ?= 0).
Proof.
  unfold dec_cmp, of_int. simpl. rewrite Z.mul_0_l.
  assert (Hp : 0 < 10 ^ (e - Z.min e 0)) by (apply Z.pow_pos_nonneg; lia).
  destruct (Z.compare_spec (signed s c) 0) as [H|H|H].
  - rewrite H. reflexivity.
  - apply Z.compare_lt_iff. nia.
  - apply Z.compare_gt_iff. nia.
Qed.

Lemma eq_zero_finite (s : bool) (c : N) (e : Z) :
  dec_eq (Fin s c e) (of_int 0) = Ok (c =? 0)%N.
Proof.
  unfold dec_eq. cbn [check_nans of_int]. rewrite cmp_zero_finite.
  unfold signed.
  destruct (N.eqb_spec c 0) as [->|Hc]; [destruct s; reflexivity|].
  destruct s; destruct (Z.compare_spec (- Z.of_N c) 0);
    destruct (Z.compare_spec (Z.of_N c) 0); try reflexivity; lia.
Qed.

(** The product of two ordinary numbers is a number with the sign of the
    exact product; it is zero only when a factor is. *)
Lemma dec_mul_ordinary (s1 : bool) (c1 : N) (e1 : Z) (s2 : bool) (c2 : N)
    (e2 : Z) :
  Z.of_N (ndigits c1) <= prec -> Z.of_N (ndigits c2) <= prec ->
  -400000 <= e1 <= 400000 -> -400000 <= e2 <= 400000 ->
  exists c e,
    dec_mul (Fin s1 c1 e1) (Fin s2 c2 e2) = Ok (Fin (xorb s1 s2) c e) /\
    (c = 0%N <-> c1 = 0%N \/ c2 = 0%N).
Proof.
  intros H1 H2 He1 He2.
  destruct (dec_mul_returns s1 c1 e1 s2 c2 e2 H1 H2 He1 He2) as (c & e & Hm).
  exists c, e. split; [exact Hm|].
  revert Hm. unfold dec_mul. cbn [check_nans]. intros Hm. split.
  - intros ->. destruct (N.eq_dec (c1 * c2)%N 0%N) as [H0|Hnz]; [lia|].
    exfalso.
    assert (Hsub : Etiny <= Z.of_N (ndigits (c1 * c2)) + (e1 + e2) - prec).
    { pose proof (ndigits_pos (c1 * c2)). unfold Etiny, Emin, prec. lia. }
    destruct (dec_fix_nonzero _ _ _ _ Hnz Hsub Hm)
      as (c' & e' & [= <- <-] & Hc').
    congruence.
  - intros H0.
    destruct (dec_fix_returns (xorb s1 s2) (c1 * c2)%N (e1 + e2) 56)
      as (c' & e' & Hf & _ & Hz & _).
    + pose proof (ndigits_mul c1 c2). unfold prec in *. lia.
    + unfold Etiny, Emin, prec. lia.
    + unfold Emax. lia.
    + rewrite Hf in Hm. injection Hm as <- <-. apply Hz. lia.
Qed.

(** The difference of two ordinary numbers is a number of at most [prec]
    digits. *)
Lemma sub_ordinary (s1 : bool) (c1 : N) (e1 : Z) (s2 : bool) (c2 : N) (e2 : Z) :
  Z.of_N (ndigits c1) <= prec -> Z.of_N (ndigits c2) <= prec ->
  -400000 <= e1 <= 400000 -> -400000 <= e2 <= 400000 ->
  exists s c e,
    dec_sub (Fin s1 c1 e1) (Fin s2 c2 e2) = Ok (Fin s c e) /\
    Z.of_N (ndigits c) <= prec /\ -400000 <= e <= 400002.
Proof.
  intros H1 H2 He1 He2.
  destruct (dec_add_returns s1 c1 e1 (negb s2) c2 e2 H1 H2 He1 He2)
    as (s & c & e & Hadd & Hd & He).
  exists s, c, e. split; [exact Hadd|]. split; [exact Hd|lia].
Qed.

Lemma sgn_signed (s : bool) (c : N) :
  Z.sgn (signed s c) = if (c =? 0)%N then 0 else if s then -1 else 1.
Proof.
  unfold signed. destruct (N.eqb_spec c 0) as [->|H]; [destruct s; reflexivity|].
  destruct s; [apply Z.sgn_neg|apply Z.sgn_pos]; lia.
Qed.

(** The exact product of two numbers is negative when neither is zero and
    their signs differ. *)
Lemma crosses_sign_finite (s1 : bool) (c1 : N) (e1 : Z) (s2 : bool) (c2 : N)
    (e2 : Z) :
  crosses_sign (Fin s1 c1 e1) (Fin s2 c2 e2) <->
  xorb s1 s2 = true /\ c1 <> 0%N /\ c2 <> 0%N.
Proof.
  unfold crosses_sign, sign_of. rewrite !sgn_signed.
  destruct (N.eqb_spec c1 0) as [H1|H1], (N.eqb_spec c2 0) as [H2|H2];
    destruct s1, s2; cbn [xorb]; split; intros H;
    try (exfalso; lia); try (destruct H as (? & ? & ?); congruence);
    try (repeat split; assumption); lia.
Qed.

End Ordinary.

(* ===================================================================== *)
(** ** Construction of a row: the change ratio *)
(* ===================================================================== *)

Section ChangeRatio.

Local Open Scope Z_scope.

(** C1, amended.  When both raw period values parse to numbers [c] and [l]
    of ordinary size, the constructor builds a row that keeps them and has
    the decimal difference [c - l]; the row has no change ratio when
    [l == 0] or the product of [c] and [l] is negative, and otherwise has
    the decimal quotient of the difference by [l]. *)
Theorem change_ratio_policy (n : string) (vc vl : value) (c l : Decimal) :
  safe_decimal vc = Some c -> safe_decimal vl = Some l ->
  ordinary c -> ordinary l ->
  exists row d,
    Row_init n vc vl = Ok row /\
    current_year row = Some c /\ last_year row = Some l /\
    dec_sub c l = Ok d /\ difference row = Some d /\
    (is_zero l \/ crosses_sign c l -> ratio row = None) /\
    (~ is_zero l -> ~ crosses_sign c l ->
     exists q, dec_div d l = Ok q /\ ratio row = Some q).
Proof.
  intros Hc Hl Oc Ol.
  destruct c as [s1 c1 e1| |]; try contradiction.
  destruct l as [s2 c2 e2| |]; try contradiction.
  destruct Oc as [Hd1 He1], Ol as [Hd2 He2].
  destruct (sub_ordinary s1 c1 e1 s2 c2 e2 Hd1 Hd2 He1 He2)
    as (sd & cd & ed & Hsub & Hdd & Hed).
  destruct (dec_mul_ordinary s1 c1 e1 s2 c2 e2 Hd1 Hd2 He1 He2)
    as (cm & em & Hmul & Hcm).
  pose proof (crosses_sign_finite s1 c1 e1 s2 c2 e2) as Hcross.
  unfold Row_init, is_zero. rewrite Hc, Hl, Hsub. cbn [Py.bind].
  rewrite ne_zero_finite, eq_zero_finite. cbn [Py.bind].
  destruct (N.eqb_spec c2 0) as [Hz|Hnz]; cbn [negb Py.bind].
  { eexists _, (Fin sd cd ed). do 5 (split; [reflexivity|]). split.
    - reflexivity.
    - intros H. exfalso. apply H. reflexivity. }
  rewrite Hmul. cbn [Py.bind]. unfold dec_ge. cbn [is_nan of_int orb Py.bind].
  change (Fin (0 <? 0) (Z.to_N (Z.abs 0)) 0) with (of_int 0).
  rewrite cmp_zero_finite.
  destruct (Z.compare_spec (signed (xorb s1 s2) cm) 0) as [Hs|Hs|Hs];
    cbn [Py.bind].
  - destruct (dec_div_returns sd cd ed s2 c2 e2 Hdd Hd2 Hed He2 Hnz)
      as (cq & eq & Hdiv).
    rewrite Hdiv. cbn [fmap result_fmap Py.bind].
    eexists _, (Fin sd cd ed). do 5 (split; [reflexivity|]). split.
    + intros [H|H]; [discriminate H|].
      apply Hcross in H as (Hx & H1 & H2). exfalso.
      rewrite Hx in Hs. unfold signed in Hs.
      assert (cm <> 0%N) by (intros H0; apply Hcm in H0; tauto). lia.
    + intros _ _. eauto.
  - eexists _, (Fin sd cd ed). do 5 (split; [reflexivity|]). split.
    + reflexivity.
    + intros _ H. exfalso. apply H, Hcross.
      unfold signed in Hs. destruct (xorb s1 s2); [|lia].
      split; [reflexivity|].
      assert (cm <> 0%N) by lia.
      split; intros ->; apply H0, Hcm; tauto.
  - destruct (dec_div_returns sd cd ed s2 c2 e2 Hdd Hd2 Hed He2 Hnz)
      as (cq & eq & Hdiv).
    rewrite Hdiv. cbn [fmap result_fmap Py.bind].
    eexists _, (Fin sd cd ed). do 5 (split; [reflexivity|]). split.
    + intros [H|H]; [discriminate H|].
      apply Hcross in H as (Hx & H1 & H2). exfalso.
      rewrite Hx in Hs. unfold signed in Hs. lia.
    + intros _ _. eauto.
Qed.

Lemma change_ratio_policy_witness :
  (safe_decimal (VStr "-300") = Some (Fin true 300 0) /\
   safe_decimal (VStr "100") = Some (Fin false 100 0) /\
   ordinary (Fin true 300 0) /\ ordinary (Fin false 100 0)) /\
  exists row d,
    Row_init "Profit" (VStr "-300") (VStr "100") = Ok row /\
    current_year row = Some (Fin true 300 0) /\
    last_year row = Some (Fin false 100 0) /\
    dec_sub (Fin true 300 0) (Fin false 100 0) = Ok d /\
    difference row = Some d /\
    (is_zero (Fin false 100 0) \/
     crosses_sign (Fin true 300 0) (Fin false 100 0) ->
     ratio row = None) /\
    (~ is_zero (Fin false 100 0) ->
     ~ crosses_sign (Fin true 300 0) (Fin false 100 0) ->
     exists q, dec_div d (Fin false 100 0) = Ok q /\ ratio row = Some q).
Proof.
  assert (O1 : ordinary (Fin true 300 0))
    by (split; [vm_compute; discriminate|lia]).
  assert (O2 : ordinary (Fin false 100 0))
    by (split; [vm_compute; discriminate|lia]).
  split; [repeat split; (reflexivity || apply O1 || apply O2)|].
  exact (change_ratio_policy "Profit" (VStr "-300") (VStr "100")
           (Fin true 300 0) (Fin false 100 0) eq_refl eq_refl O1 O2).
Defined.

(** C1, as stated, fails on numbers that are not of ordinary size.  The
    sign test is made on the rounded product: for 1e-500014 and -1e-500014
    the product underflows to a negative zero, which is not below zero, and
    the row gets the ratio -2 although the two periods have opposite signs.
    And for 9e999999 and -9e999999 the difference overflows: the
    constructor raises and there is no row. *)
Lemma sign_test_is_on_the_rounded_product :
  (safe_decimal (VStr "1e-500014") = Some (Fin false 1 (-500014)) /\
   safe_decimal (VStr "-1e-500014") = Some (Fin true 1 (-500014)) /\
   crosses_sign (Fin false 1 (-500014)) (Fin true 1 (-500014)) /\
   Row_init "Revenue" (VStr "1e-500014") (VStr "-1e-500014")
     = Ok (mkRow "Revenue" (Some (Fin false 1 (-500014)))
             (Some (Fin true 1 (-500014))) (Some (Fin false 2 (-500014)))
             (Some (Fin true 2 0)))) /\
  (safe_decimal (VStr "9e999999") = Some (Fin false 9 999999) /\
   safe_decimal (VStr "-9e999999") = Some (Fin true 9 999999) /\
   Row_init "Revenue" (VStr "9e999999") (VStr "-9e999999") = Raise Overflow).
Proof.
  split.
  - assert (H1 : safe_decimal (VStr "1e-500014")
                 = Some (Fin false 1 (-500014))) by (vm_compute; reflexivity).
    assert (H2 : safe_decimal (VStr "-1e-500014")
                 = Some (Fin true 1 (-500014))) by (vm_compute; reflexivity).
    split; [exact H1|]. split; [exact H2|].
    split; [vm_compute; reflexivity|].
    assert (Hsub : dec_sub (Fin false 1 (-500014)) (Fin true 1 (-500014))
                   = Ok (Fin false 2 (-500014))) by (vm_compute; reflexivity).
    assert (Hmul : dec_mul (Fin false 1 (-500014)) (Fin true 1 (-500014))
                   = Ok (Fin true 0 (-1000026))) by (vm_compute; reflexivity).
    assert (Hdiv : dec_div (Fin false 2 (-500014)) (Fin true 1 (-500014))
                   = Ok (Fin true 2 0)) by (vm_compute; reflexivity).
    unfold Row_init. rewrite H1, H2, Hsub. cbn [Py.bind].
    rewrite ne_zero_finite. cbn [N.eqb negb Py.bind].
    rewrite Hmul. cbn [Py.bind]. unfold dec_ge. cbn [is_nan orb].
    rewrite cmp_zero_finite. cbn [signed N.eqb Z.of_N Z.opp Z.compare Py.bind].
    rewrite Hdiv. reflexivity.
  - assert (H1 : safe_decimal (VStr "9e999999") = Some (Fin false 9 999999))
      by (vm_compute; reflexivity).
    assert (H2 : safe_decimal (VStr "-9e999999") = Some (Fin true 9 999999))
      by (vm_compute; reflexivity).
    split; [exact H1|]. split; [exact H2|].
    assert (Hsub : dec_sub (Fin false 9 999999) (Fin true 9 999999)
                   = Raise Overflow) by (vm_compute; reflexivity).
    unfold Row_init. rewrite H1, H2, Hsub. reflexivity.
Qed.

End ChangeRatio.

(** C5, amended.  The constructor never raises when at least one of the two
    raw values fails to parse, and then the difference and the change ratio
    are missing; it never raises either when both parse to numbers of
    ordinary size. *)
Theorem row_construction_returns (n : string) (vc vl : value) :
  safe_decimal vc = None \/ safe_decimal vl = None \/
  (exists c l, safe_decimal vc = Some c /\ safe_decimal vl = Some l /\
               ordinary c /\ ordinary l) ->
  exists row,
    Row_init n vc vl = Ok row /\
    (safe_decimal vc = None \/ safe_decimal vl = None ->
     difference row = None /\ ratio row = None).
Proof.
  intros [H|[H|(c & l & Hc & Hl & Oc & Ol)]].
  - eexists. split; [apply Row_init_missing; auto|]. auto.
  - eexists. split; [apply Row_init_missing; auto|]. auto.
  - destruct (Row_init_returns n vc vl c l Hc Hl Oc Ol) as [row Hrow].
    exists row. split; [exact Hrow|]. intros [?|?]; congruence.
Qed.

Lemma row_construction_returns_witness :
  (safe_decimal (VStr "1200.50") = None \/ safe_decimal (VStr "1000") = None \/
   (exists c l, safe_decimal (VStr "1200.50") = Some c /\
                safe_decimal (VStr "1000") = Some l /\
                ordinary c /\ ordinary l)) /\
  exists row,
    Row_init "Revenue" (VStr "1200.50") (VStr "1000") = Ok row /\
    (safe_decimal (VStr "1200.50") = None \/ safe_decimal (VStr "1000") = None ->
     difference row = None /\ ratio row = None).
Proof.
  assert (H : exists c l, safe_decimal (VStr "1200.50") = Some c /\
                          safe_decimal (VStr "1000") = Some l /\
                          ordinary c /\ ordinary l).
  { exists (Fin false 120050 (-2)), (Fin false 1000 0).
    split; [reflexivity|]. split; [reflexivity|].
    split; (split; [vm_compute; discriminate|lia]). }
  split; [right; right; exact H|].
  apply (row_construction_returns "Revenue" (VStr "1200.50") (VStr "1000")).
  right; right; exact H.
Defined.

(* ===================================================================== *)
(** ** Scenarios *)
(* ===================================================================== *)

(** The complete sample statement is analysed without fault. *)
Example sample_statement_completes :
  status (analyse_file sample_statement) = Ok tt /\
  derived_rows sample_statement =
    Ok [mkRow "Current Ratio" (Some (Fin false 2 0)) (Some (Fin false 2 0))
          (Some (Fin false 0 0)) (Some (Fin false 0 0));
        mkRow "Debt to Equity Ratio" (Some (Fin false 6 (-1)))
          (Some (Fin false 7272727272727272727272727273 (-28)))
          (Some (Fin true 1272727272727272727272727273 (-28)))
          (Some (Fin true 1750000000000000000000000000 (-28)));
        mkRow "Debt Service Coverage Ratio" (Some (Fin false 6 0))
          (Some (Fin false 4545454545454545454545454545 (-27)))
          (Some (Fin false 1454545454545454545454545455 (-27)))
          (Some (Fin false 3200000000000000000000000001 (-28)))].
Proof. split; vm_compute; reflexivity. Qed.

(** A value that triples has change ratio 2 and gets the warning line. *)
Example tripled_value_is_flagged :
  Row_init "Revenue" (VStr "300") (VStr "100") =
    Ok (mkRow "Revenue" (Some (Fin false 300 0)) (Some (Fin false 100 0))
          (Some (Fin false 200 0)) (Some (Fin false 2 0))) /\
  ratio_above_one
    (mkRow "Revenue" (Some (Fin false 300 0)) (Some (Fin false 100 0))
       (Some (Fin false 200 0)) (Some (Fin false 2 0))) = Ok true.
Proof. split; reflexivity. Qed.

(** A value that changes sign has no change ratio. *)
Example sign_crossing_has_no_ratio :
  Row_init "Profit" (VStr "-300") (VStr "100") =
    Ok (mkRow "Profit" (Some (Fin true 300 0)) (Some (Fin false 100 0))
          (Some (Fin true 400 0)) None).
Proof. reflexivity. Qed.

(** Percentages keep their two fractional digits. *)
Example percent_keeps_zeros :
  format_decimal (Decimal_of_string "0.25") true true = "25.00%".
Proof. reflexivity. Qed.


(* ===================================================================== *)
(** ** Reading the statement *)
(* ===================================================================== *)

Lemma read_rows_spec (records : list (string * value * value)) :
  forall (t0 t : Table),
    read_rows records t0 = Ok t <->
    exists built,
      Forall2 (fun record row => row_of_record record = Ok row) records built /\
      t = mkTable (rows t0 ++ built) (row_name_index_dict t0).
Proof.
  induction records as [|[[n c] l] records IH]; intros t0 t; cbn [read_rows].
  - split.
    + intros [= <-]. exists []. split; [constructor|].
      rewrite app_nil_r. destruct t0; reflexivity.
    + intros (built & Hb & ->). inversion Hb; subst.
      rewrite app_nil_r. destruct t0; reflexivity.
  - destruct (Row_init n c l) as [row|e] eqn:Hrow; cbn [Py.bind].
    + rewrite IH. unfold add_row. cbn [rows row_name_index_dict]. split.
      * intros (built & Hb & ->). exists (row :: built). split.
        -- constructor; [exact Hrow|exact Hb].
        -- rewrite <- app_assoc. reflexivity.
      * intros (built & Hb & ->).
        inversion Hb as [|? row' ? built' Hr Hb']; subst.
        cbn [row_of_record] in Hr. rewrite Hrow in Hr. injection Hr as <-.
        exists built'. split; [exact Hb'|]. rewrite <- app_assoc. reflexivity.
    + split; [discriminate|].
      intros (built & Hb & _). inversion Hb as [|? row' ? built' Hr Hb']; subst.
      cbn [row_of_record] in Hr. congruence.
Qed.

Lemma Row_init_name (n : string) (c l : value) (row : Row) :
  Row_init n c l = Ok row -> name row = n.
Proof. intros H. apply Row_init_fields in H. tauto. Qed.

(** X12.  The statement is read into a table exactly when a row can be built
    for every record; the table then holds these rows, one per record and in
    the order of the input, under the default index map. *)
Theorem reading_keeps_the_input_order (records : list (string * value * value))
    (t : Table) :
  table_of records = Ok t <->
  Forall2 (fun record row => row_of_record record = Ok row) records (rows t) /\
  row_name_index_dict t = DEFAULT_COLUMN_ROW_INDEX.
Proof.
  unfold table_of. rewrite read_rows_spec. cbn [rows row_name_index_dict Table_init app].
  split.
  - intros (built & Hb & ->). auto.
  - intros [Hb Hd]. exists (rows t). split; [exact Hb|].
    destruct t; cbn in *; congruence.
Qed.

Lemma reading_keeps_the_input_order_witness :
  table_of sample_statement = Ok sample_table /\
  Forall2 (fun record row => row_of_record record = Ok row)
    sample_statement (rows sample_table) /\
  row_name_index_dict sample_table = DEFAULT_COLUMN_ROW_INDEX.
Proof.
  assert (H : table_of sample_statement = Ok sample_table)
    by (vm_compute; reflexivity).
  split; [exact H|].
  exact (proj1 (reading_keeps_the_input_order sample_statement sample_table)
           H).
Defined.

Lemma rows_of_table_of (records : list (string * value * value)) (t : Table) :
  table_of records = Ok t ->
  length (rows t) = length records /\
  map name (rows t) = map (fun record => record.1.1) records.
Proof.
  unfold table_of. intros (built & Hb & ->)%read_rows_spec.
  cbn [rows Table_init app]. split.
  - symmetry. eapply Forall2_length, Hb.
  - induction Hb as [|[[n c] l] row records built Hr _ IH]; [reflexivity|].
    cbn [map]. rewrite IH. cbn [row_of_record] in Hr.
    rewrite (Row_init_name _ _ _ _ Hr). reflexivity.
Qed.


(* ===================================================================== *)
(** ** Derived rows: the loop as a whole *)
(* ===================================================================== *)

Section Loop.

Implicit Types (self : Table) (entry : string * (formula * list string)).

Lemma generate_one_derived self entry :
  generate_one self entry =
    Ok (mkTable (rows self ++ [derived_row_of self entry])
          (if entry_succeeds self entry
           then <[index_key entry.1 := Some (length (rows self))]>
                  (row_name_index_dict self)
           else row_name_index_dict self)).
Proof.
  destruct entry as [n [func args]].
  pose proof (generate_one_cases self n func args) as H.
  unfold derived_row_of, entry_succeeds. cbn [fst].
  destruct (try_block self n func args); exact H.
Qed.

(** The loop leaves alone every name of the index map that is not the
    normalized name of an entry. *)
Lemma generate_from_keeps_other_names
    (entries : list (string * (formula * list string))) (key : string) :
  Forall (fun entry => index_key entry.1 <> key) entries ->
  forall self self',
    generate_from entries self = Ok self' ->
    row_name_index_dict self' !! key = row_name_index_dict self !! key.
Proof.
  induction 1 as [|entry entries Hne _ IH]; intros self self'.
  - intros [= <-]. reflexivity.
  - cbn [generate_from]. rewrite generate_one_derived. cbn [Py.bind].
    intros H. rewrite (IH _ _ H). cbn [row_name_index_dict].
    destruct (entry_succeeds self entry); [|reflexivity].
    apply lookup_insert_ne. exact Hne.
Qed.

(** Isolation: when every source name is bound below the current length and
    no normalized entry name is a source name, every entry is evaluated on
    the rows the loop started from. *)
Lemma generate_from_isolated
    (entries : list (string * (formula * list string))) self :
  (forall entry n, In entry entries -> In n entry.2.2 ->
     forall key_entry, In key_entry entries -> index_key key_entry.1 <> n) ->
  forall (extra : list Row) (dict' : gmap string (option nat)),
    (forall entry n, In entry entries -> In n entry.2.2 ->
       exists i, row_name_index_dict self !! n = Some (Some i) /\
                 dict' !! n = Some (Some i) /\
                 (i < length (rows self))%nat) ->
    exists self',
      generate_from entries (mkTable (rows self ++ extra) dict') = Ok self' /\
      rows self' = (rows self ++ extra) ++ map (derived_row_of self) entries.
Proof.
  induction entries as [|entry entries IH]; intros Hkeys extra dict' Hsrc.
  - eexists. split; [reflexivity|]. cbn [map rows]. rewrite app_nil_r.
    reflexivity.
  - cbn [generate_from]. rewrite generate_one_derived. cbn [Py.bind rows row_name_index_dict].
    assert (Htry : forall A (k1 : Row -> A) (k2 : Py.exn -> A),
              match try_block (mkTable (rows self ++ extra) dict')
                      entry.1 entry.2.1 entry.2.2 with
              | Ok r => k1 r | Raise e => k2 e end =
              match try_block self entry.1 entry.2.1 entry.2.2 with
              | Ok r => k1 r | Raise e => k2 e end).
    { intros A k1 k2. rewrite try_block_unchanged_by_appending; [reflexivity|].
      apply Forall_forall. intros n Hn%list_elem_of_In.
      apply (Hsrc entry n); [left; reflexivity|exact Hn]. }
    assert (Hrow : derived_row_of (mkTable (rows self ++ extra) dict') entry
                   = derived_row_of self entry).
    { destruct entry as [n [func args]]. unfold derived_row_of. apply Htry. }
    rewrite Hrow. rewrite <- app_assoc.
    edestruct (IH (fun e n He Hn k Hk =>
                     Hkeys e n (or_intror He) Hn k (or_intror Hk))
                 (extra ++ [derived_row_of self entry])) as (self' & Hgen & Hrows).
    2:{ exists self'. split; [exact Hgen|]. rewrite Hrows. cbn [map].
        rewrite <- !app_assoc. reflexivity. }
    intros e n He Hn.
    destruct (Hsrc e n (or_intror He) Hn) as (i & H1 & H2 & H3).
    exists i. split; [exact H1|]. split; [|exact H3].
    destruct (entry_succeeds _ entry); [|exact H2].
    rewrite lookup_insert_ne; [exact H2|].
    apply (Hkeys e n (or_intror He) Hn entry). left; reflexivity.
Qed.

End Loop.

(** X7.  On a table that holds all the base lines the registry reads (at least
    fourteen rows under the default index map), the loop never raises and the
    three rows it appends are those of the three formulas evaluated one by one
    on the base rows: no entry sees what another one appended. *)
Theorem derived_rows_are_independent (self : Table) :
  row_name_index_dict self = DEFAULT_COLUMN_ROW_INDEX ->
  (14 <= length (rows self))%nat ->
  exists self',
    generate_additional_rows self = Ok self' /\
    rows self' = rows self ++ map (derived_row_of self) ADDITIONAL_ROWS.
Proof.
  intros Hd Hlen.
  destruct (generate_from_isolated ADDITIONAL_ROWS self) with
    (extra := @nil Row) (dict' := row_name_index_dict self)
    as (self' & Hgen & Hrows).
  - intros entry n He Hn key_entry Hk.
    registry_cases He; cbn [snd In] in Hn;
      repeat (destruct Hn as [Hn|Hn]; [subst|]); try destruct Hn;
      registry_cases Hk; vm_compute; discriminate.
  - intros entry n He Hn. rewrite Hd.
    registry_cases He; cbn [snd In] in Hn;
      repeat (destruct Hn as [Hn|Hn]; [subst|]); try destruct Hn;
      (eexists; split; [vm_compute; reflexivity|];
       split; [vm_compute; reflexivity|lia]).
  - rewrite app_nil_r in *. exists self'. split; [|exact Hrows].
    destruct self; exact Hgen.
Qed.

Lemma derived_rows_are_independent_witness :
  (row_name_index_dict sample_table = DEFAULT_COLUMN_ROW_INDEX /\
   (14 <= length (rows sample_table))%nat) /\
  exists self',
    generate_additional_rows sample_table = Ok self' /\
    rows self' =
      rows sample_table ++ map (derived_row_of sample_table) ADDITIONAL_ROWS.
Proof.
  split; [split; [reflexivity|vm_compute; lia]|].
  apply (derived_rows_are_independent sample_table);
    [reflexivity|vm_compute; lia].
Defined.

(** What the names of the ratios resolve to after the loop. *)
Lemma ratio_names_after_loop (self self' : Table)
    (first : string * (formula * list string)) :
  row_name_index_dict self = DEFAULT_COLUMN_ROW_INDEX ->
  ADDITIONAL_ROWS !! 0%nat = Some first ->
  generate_additional_rows self = Ok self' ->
  get_row_by_name self' "dte_ratio" = Ok None /\
  get_row_by_name self' "dsc_ratio" = Ok None /\
  get_row_by_name self' "current_ratio" =
    (if entry_succeeds self first
     then Ok (Some (derived_row_of self first))
     else Ok None).
Proof.
  intros Hd Hfirst0 Hgen.
  assert (Hother : forall key,
            Forall (fun entry => index_key entry.1 <> key) ADDITIONAL_ROWS ->
            row_name_index_dict self' !! key = DEFAULT_COLUMN_ROW_INDEX !! key).
  { intros key Hk. rewrite <- Hd.
    exact (generate_from_keeps_other_names _ key Hk _ _ Hgen). }
  split; [|split].
  - unfold get_row_by_name, dict_get. rewrite Hother; [reflexivity|].
    repeat constructor; vm_compute; discriminate.
  - unfold get_row_by_name, dict_get. rewrite Hother; [reflexivity|].
    repeat constructor; vm_compute; discriminate.
  - set (others := tl ADDITIONAL_ROWS).
    assert (Hreg : ADDITIONAL_ROWS = first :: others)
      by (injection Hfirst0 as <-; reflexivity).
    unfold generate_additional_rows in Hgen. rewrite Hreg in Hgen.
    cbn [generate_from] in Hgen. rewrite generate_one_derived in Hgen.
    cbn [Py.bind] in Hgen.
    assert (Hfirst : index_key first.1 = "current_ratio")
      by (injection Hfirst0 as <-; reflexivity).
    assert (Hrest : Forall (fun entry => index_key entry.1 <> "current_ratio")
                      others).
    { subst others. repeat constructor; vm_compute; discriminate. }
    pose proof (generate_from_keeps_other_names _ _ Hrest _ _ Hgen) as Hkey.
    destruct (generate_from_appends others
                (mkTable (rows self ++ [derived_row_of self first])
                   (if entry_succeeds self first
                    then <[index_key first.1 := Some (length (rows self))]>
                           (row_name_index_dict self)
                    else row_name_index_dict self)))
      as (t & new & Hgen' & Hrows & _).
    rewrite Hgen in Hgen'. injection Hgen' as <-.
    cbn [rows row_name_index_dict] in Hkey, Hrows.
    unfold get_row_by_name, dict_get. rewrite Hkey.
    destruct (entry_succeeds self first).
    + rewrite Hfirst, lookup_insert_eq. cbn [mjoin option_join].
      rewrite Hrows, !length_app. cbn [length].
      destruct (Nat.leb_spec (length (rows self) + 1 + length new)
                  (length (rows self))); [lia|].
      unfold getitem. rewrite <- app_assoc.
      rewrite lookup_app_r by lia. rewrite Nat.sub_diag. reflexivity.
    + rewrite Hd. reflexivity.
Qed.

(** The names are looked up one after the other: a list of names that
    resolve to no row adds nothing to the report. *)
Lemma write_text_report_from_app (table : Table) (names skipped : list string) :
  Forall (fun n => get_row_by_name table n = Ok None) skipped ->
  forall file,
    write_text_report_from (names ++ skipped) file table
      = write_text_report_from names file table.
Proof.
  intros Hskip. induction names as [|n names IH]; intros file.
  - cbn [app]. induction Hskip as [|n skipped Hn _ IHs]; [reflexivity|].
    cbn [write_text_report_from]. rewrite Hn. exact IHs.
  - cbn [app write_text_report_from].
    destruct (get_row_by_name table n) as [[row|]|]; [|apply IH|reflexivity].
    destruct (ge_int (difference row) 0) as [increase|]; [|reflexivity].
    destruct (ratio_above_one row) as [[|]|]; [apply IH|apply IH|reflexivity].
Qed.

(** X8.  The loop records the ratios under their normalized full names, and
    the report asks for "current_ratio", "dte_ratio" and "dsc_ratio": on a
    table under the default index map, the last two resolve to no row after
    the loop, whatever the statement holds, so the report never has a
    paragraph for the debt-to-equity and the debt-service-coverage ratios;
    "current_ratio" resolves to the row of the first formula when its [try]
    block ran to the end, and to no row otherwise. *)
Theorem report_names_of_the_ratios (self self' : Table)
    (first : string * (formula * list string)) :
  row_name_index_dict self = DEFAULT_COLUMN_ROW_INDEX ->
  ADDITIONAL_ROWS !! 0%nat = Some first ->
  generate_additional_rows self = Ok self' ->
  get_row_by_name self' "dte_ratio" = Ok None /\
  get_row_by_name self' "dsc_ratio" = Ok None /\
  get_row_by_name self' "current_ratio" =
    (if entry_succeeds self first
     then Ok (Some (derived_row_of self first))
     else Ok None) /\
  forall file,
    write_text_report file self' =
      write_text_report_from
        ["revenue"; "profit"; "assets"; "liabilities"; "equity";
         "current_ratio"] file self'.
Proof.
  intros Hd Hfirst Hgen.
  destruct (ratio_names_after_loop self self' first Hd Hfirst Hgen)
    as (Hdte & Hdsc & Hcur).
  repeat split; try assumption.
  intros file. unfold write_text_report.
  change report_names
    with (["revenue"; "profit"; "assets"; "liabilities"; "equity";
           "current_ratio"] ++ ["dte_ratio"; "dsc_ratio"]).
  apply write_text_report_from_app. repeat constructor; assumption.
Qed.

Lemma report_names_of_the_ratios_witness :
  exists first,
    (row_name_index_dict sample_table = DEFAULT_COLUMN_ROW_INDEX /\
     ADDITIONAL_ROWS !! 0%nat = Some first /\
     generate_additional_rows sample_table = Ok sample_table_with_ratios) /\
    get_row_by_name sample_table_with_ratios "dte_ratio" = Ok None /\
    get_row_by_name sample_table_with_ratios "dsc_ratio" = Ok None.
Proof.
  assert (Hgen : generate_additional_rows sample_table
                 = Ok sample_table_with_ratios) by (vm_compute; reflexivity).
  destruct ADDITIONAL_ROWS as [|first others] eqn:Hreg; [discriminate Hreg|].
  exists first. split; [split; [reflexivity|split; [reflexivity|exact Hgen]]|].
  pose proof (report_names_of_the_ratios sample_table
                sample_table_with_ratios first eq_refl) as H.
  rewrite Hreg in H. specialize (H eq_refl Hgen).
  split; [exact (proj1 H)|exact (proj1 (proj2 H))].
Defined.

(* ===================================================================== *)
(** ** Derived rows: the handler *)
(* ===================================================================== *)

Lemma try_block_unresolved (self : Table) (n : string) (func : formula)
    (names : list string) (missing : string) :
  In missing names -> get_row_by_name self missing = Ok None ->
  exists e, try_block self n func names = Raise e.
Proof.
  intros Hin Hnone. unfold try_block, get_values_from_lambda_tuple.
  destruct (comprehension_unresolved self current_year names missing Hin Hnone)
    as [e ->].
  exists e. reflexivity.
Qed.

(** X4.  A formula one of whose source names resolves to no row gets the
    all-missing row, and its name is not recorded in the index map. *)
Theorem absent_source_gives_missing_row (self : Table) (n : string)
    (func : formula) (names : list string) (missing : string) :
  In missing names ->
  get_row_by_name self missing = Ok None ->
  generate_one self (n, (func, names)) =
    Ok (mkTable (rows self ++ [missing_row n]) (row_name_index_dict self)).
Proof.
  intros Hin Hnone.
  pose proof (generate_one_cases self n func names) as H.
  destruct (try_block_unresolved self n func names missing Hin Hnone) as [e He].
  rewrite He in H. exact H.
Qed.

Lemma absent_source_gives_missing_row_witness :
  (In "equity" ["ncib_debt"; "equity"] /\
   get_row_by_name Table_init "equity" = Ok None) /\
  generate_one Table_init
    ("Debt to Equity Ratio", ((fun _ => Raise TypeError), ["ncib_debt"; "equity"])) =
    Ok (mkTable (rows Table_init ++ [missing_row "Debt to Equity Ratio"])
          (row_name_index_dict Table_init)).
Proof.
  split; [split; [right; left; reflexivity|reflexivity]|].
  apply (absent_source_gives_missing_row Table_init "Debt to Equity Ratio"
           (fun _ => Raise TypeError) ["ncib_debt"; "equity"] "equity");
    [right; left; reflexivity|reflexivity].
Defined.

(** The [try] block raises when the formula raises on the values of either
    period. *)
Lemma try_block_formula_fault (self : Table) (n : string)
    (func : formula) (names : list string) (sources : list Row) (e : exn) :
  Forall2 (fun nm r => get_row_by_name self nm = Ok (Some r)) names sources ->
  func (map current_year sources) = Raise e \/
  func (map last_year sources) = Raise e ->
  exists e', try_block self n func names = Raise e'.
Proof.
  intros Hsrc Hraise.
  unfold try_block, get_values_from_lambda_tuple.
  rewrite !(comprehension_resolved _ _ _ _ Hsrc). cbn [Py.bind].
  destruct Hraise as [->| ->]; [eauto|].
  destruct (func (map current_year sources)); cbn [Py.bind]; eauto.
Qed.

(** X5.  A formula that raises on the current-period values of its sources, or
    on their prior-period values, gets the all-missing row - even when the
    other period could be computed - and its name is not recorded. *)
Theorem formula_fault_gives_missing_row (self : Table) (n : string)
    (func : formula) (names : list string) (sources : list Row) (e : exn) :
  Forall2 (fun nm r => get_row_by_name self nm = Ok (Some r)) names sources ->
  func (map current_year sources) = Raise e \/
  func (map last_year sources) = Raise e ->
  generate_one self (n, (func, names)) =
    Ok (mkTable (rows self ++ [missing_row n]) (row_name_index_dict self)).
Proof.
  intros Hsrc Hraise.
  pose proof (generate_one_cases self n func names) as H.
  destruct (try_block_formula_fault self n func names sources e Hsrc Hraise)
    as [e' He'].
  rewrite He' in H. exact H.
Qed.

Lemma formula_fault_gives_missing_row_witness :
  (Forall2 (fun nm r => get_row_by_name sample_table nm = Ok (Some r))
     ["equity"] [mkRow "Equity" (Some (Fin false 500 0))
                   (Some (Fin false 440 0)) (Some (Fin false 60 0))
                   (Some (Fin false 1363636363636363636363636364 (-28)))] /\
   ((fun args : list (option Decimal) => truediv (Some (Fin false 1 0)) None)
      [Some (Fin false 500 0)] = Raise TypeError \/
    (fun args : list (option Decimal) => truediv (Some (Fin false 1 0)) None)
      [Some (Fin false 440 0)] = Raise TypeError)) /\
  generate_one sample_table
    ("Inverse", ((fun _ => truediv (Some (Fin false 1 0)) None), ["equity"])) =
    Ok (mkTable (rows sample_table ++ [missing_row "Inverse"])
          (row_name_index_dict sample_table)).
Proof.
  assert (Hsrc : Forall2
            (fun nm r => get_row_by_name sample_table nm = Ok (Some r))
            ["equity"] [mkRow "Equity" (Some (Fin false 500 0))
                          (Some (Fin false 440 0)) (Some (Fin false 60 0))
                          (Some (Fin false 1363636363636363636363636364
                                   (-28)))]).
  { constructor; [vm_compute; reflexivity|constructor]. }
  split; [split; [exact Hsrc|left; reflexivity]|].
  exact (formula_fault_gives_missing_row sample_table "Inverse"
           (fun _ => truediv (Some (Fin false 1 0)) None) ["equity"] _
           TypeError Hsrc (or_introl eq_refl)).
Defined.

(** Dividing a number, or a missing value, by a zero raises. *)
Lemma truediv_by_zero (a : option Decimal) (s : bool) (e : Z) :
  match a with Some (Fin _ _ _) | None => True | _ => False end ->
  exists err, truediv a (Some (Fin s 0 e)) = Raise err.
Proof.
  destruct a as [[sa ca ea| |]|]; try contradiction; intros _.
  - unfold truediv, dec_div. simpl check_nans. cbv iota beta.
    change ((0 =? 0)%N) with true. cbv iota.
    destruct (ca =? 0)%N; eauto.
  - eauto.
Qed.

(** X6.  A current-liabilities value that is zero in one period makes the
    whole "Current Ratio" row all-missing, whatever the other period holds:
    the division by zero raises, the handler appends the empty row, and
    "current_ratio" is not recorded. *)
Theorem zero_liabilities_blank_the_current_ratio (self : Table)
    (assets liabilities : Row) (entry : string * (formula * list string))
    (s : bool) (e : Z) :
  ADDITIONAL_ROWS !! 0%nat = Some entry ->
  get_row_by_name self "current_asset" = Ok (Some assets) ->
  get_row_by_name self "current_liability" = Ok (Some liabilities) ->
  (current_year liabilities = Some (Fin s 0 e) /\
   match current_year assets with
   | Some (Fin _ _ _) | None => True | _ => False end) \/
  (last_year liabilities = Some (Fin s 0 e) /\
   match last_year assets with
   | Some (Fin _ _ _) | None => True | _ => False end) ->
  generate_one self entry =
    Ok (mkTable (rows self ++ [missing_row "Current Ratio"])
          (row_name_index_dict self)).
Proof.
  intros [= <-] Ha Hl Hzero.
  assert (Hfault : exists err,
            truediv (current_year assets) (current_year liabilities) = Raise err \/
            truediv (last_year assets) (last_year liabilities) = Raise err).
  { destruct Hzero as [[-> Hfin]|[-> Hfin]];
      destruct (truediv_by_zero _ s e Hfin) as [err Herr]; eauto. }
  destruct Hfault as [err Hfault].
  match goal with
  | |- generate_one self (?n, (?func, ?names)) = _ =>
      pose proof (generate_one_cases self n func names) as H;
      destruct (try_block_formula_fault self n func names
                  [assets; liabilities] err) as [e' He'];
      [repeat constructor; assumption|exact Hfault|];
      rewrite He' in H; exact H
  end.
Qed.

Lemma zero_liabilities_blank_the_current_ratio_witness :
  exists entry assets liabilities,
    (ADDITIONAL_ROWS !! 0%nat = Some entry /\
     get_row_by_name zero_liabilities_table "current_asset" = Ok (Some assets) /\
     get_row_by_name zero_liabilities_table "current_liability"
       = Ok (Some liabilities) /\
     ((current_year liabilities = Some (Fin false 0 0) /\
       match current_year assets with
       | Some (Fin _ _ _) | None => True | _ => False end) \/
      (last_year liabilities = Some (Fin false 0 0) /\
       match last_year assets with
       | Some (Fin _ _ _) | None => True | _ => False end))) /\
    generate_one zero_liabilities_table entry =
      Ok (mkTable (rows zero_liabilities_table ++ [missing_row "Current Ratio"])
            (row_name_index_dict zero_liabilities_table)).
Proof.
  eexists _, _, _. split.
  - split; [reflexivity|]. split; [vm_compute; reflexivity|].
    split; [vm_compute; reflexivity|]. left. split; [reflexivity|exact I].
  - eapply (zero_liabilities_blank_the_current_ratio zero_liabilities_table);
      [reflexivity|vm_compute; reflexivity|vm_compute; reflexivity
      |left; split; [reflexivity|exact I]].
Defined.

(* ===================================================================== *)
(** ** Formatting: texts without a decimal point *)
(* ===================================================================== *)

Section PercentAndText.

Local Open Scope char_scope.
Local Open Scope list_scope.

Lemma sub_keeps_dot_free (l : list ascii) :
  Forall (fun c => is_dot c = false) l ->
  sub_group tail_dot_rgx 2 l = l.
Proof.
  intros Hl. unfold sub_group.
  destruct (sub_skips_dot_free l Hl (S (length l)) None []) as [b' Hb'];
    [lia|].
  rewrite app_nil_r in Hb'. rewrite Hb'.
  replace (S (length l) - length l)%nat with 1%nat by lia.
  rewrite <- (app_nil_r l) at 2. reflexivity.
Qed.

(** X10.  A text without a decimal point goes through [remove_tail_dot_zeros]
    unchanged, whatever zeros it ends with. *)
Theorem text_without_dot_is_kept (a : string) :
  Forall (fun c => is_dot c = false) (chars a) ->
  remove_tail_dot_zeros a = a.
Proof.
  intros Ha. unfold remove_tail_dot_zeros.
  rewrite sub_keeps_dot_free by exact Ha.
  unfold text, chars. apply string_of_list_ascii_of_string.
Qed.

Lemma text_without_dot_is_kept_witness :
  Forall (fun c => is_dot c = false) (chars "1,200 items") /\
  remove_tail_dot_zeros "1,200 items" = "1,200 items"%string.
Proof.
  assert (H : Forall (fun c => is_dot c = false) (chars "1,200 items"))
    by (repeat constructor).
  split; [exact H|exact (text_without_dot_is_kept "1,200 items" H)].
Defined.

(** X11.  Without the percent option the infinities and the NaNs are written
    by name, as [str] writes them, with their sign and, for a NaN, its
    payload; nothing is stripped from them. *)
Theorem special_values_are_written_by_name :
  (forall (s with_commas : bool),
     format_decimal (Some (Inf s)) false with_commas
       = text (sign_chars s ++ chars "Infinity")) /\
  (forall (s g with_commas : bool) (p : N),
     format_decimal (Some (NaN s g p)) false with_commas
       = Decimal_str (NaN s g p)).
Proof.
  split.
  - intros s with_commas. destruct s; reflexivity.
  - intros s g with_commas p. unfold format_decimal, Decimal_str.
    assert (Hfmt : Decimal_format (NaN s g p) false with_commas
                   = Decimal_chars (NaN s g p)).
    { unfold Decimal_format, Decimal_chars, copy_abs. cbn [sign_chars app].
      rewrite app_nil_r. reflexivity. }
    rewrite Hfmt. unfold remove_tail_dot_zeros, chars, text.
    rewrite list_ascii_of_string_of_list_ascii, sub_keeps_dot_free;
      [reflexivity|].
    unfold Decimal_chars. apply Forall_app.
    split; [destruct s; repeat constructor|].
    apply Forall_app. split; [destruct g; repeat constructor|].
    destruct (p =? 0)%N; [constructor|].
    eapply Forall_impl; [apply digits_of_all_digits|].
    intros x. apply is_digit_not_dot.
Qed.

End PercentAndText.

(* ===================================================================== *)
(** ** Rows that the report can write *)
(* ===================================================================== *)

Section Reportable.

Local Open Scope Z_scope.


Lemma round_carry_digits_le (c j m : N) :
  (ndigits c <= j + m)%N -> (1 <= m)%N ->
  (ndigits (round_half_even c j / 10) <= m)%N.
Proof.
  intros Hd Hm.
  pose proof (ndigits_upper c) as Hup.
  assert (Hup' : (c < 10 ^ j * 10 ^ m)%N).
  { rewrite <- N.pow_add_r. eapply N.lt_le_trans; [exact Hup|].
    apply N.pow_le_mono_r; [discriminate|exact Hd]. }
  assert (Hq : (c / 10 ^ j < 10 ^ m)%N).
  { apply N.Div0.div_lt_upper_bound. exact Hup'. }
  pose proof (round_half_even_le c j) as Hr.
  apply ndigits_le; [exact Hm|].
  apply N.Div0.div_lt_upper_bound.
  set (P := (10 ^ m)%N) in *. lia.
Qed.

(** Rounding a number to the context gives a number with the same sign. *)
Lemma dec_fix_finite (s : bool) (c : N) (e : Z) (d : Decimal) :
  dec_fix (Fin s c e) = Ok d -> exists c' e', d = Fin s c' e'.
Proof.
  unfold dec_fix.
  destruct (c =? 0)%N; [intros [= <-]; eauto|].
  destruct (Etop <? _); [discriminate|].
  destruct (e <? _); [|intros [= <-]; eauto].
  destruct (prec <? _); (destruct (Etop <? _); [discriminate|intros [= <-]; eauto]).
Qed.

(** A number rounded to the context is left as it is by a second rounding:
    in particular the second rounding does not overflow. *)
Lemma dec_fix_settled (s : bool) (c : N) (e : Z) (d : Decimal) :
  dec_fix (Fin s c e) = Ok d -> settled d.
Proof.
  unfold dec_fix.
  destruct (N.eqb_spec c 0) as [Hz|Hnz].
  { intros [= <-]. cbn. eauto. }
  pose proof (ndigits_pos c) as Hpos.
  unfold Etop, Etiny, Emax, Emin, prec.
  destruct (Z.ltb_spec (999999 - 28 + 1) (Z.of_N (ndigits c) + e - 28))
    as [|Hfit]; [discriminate|].
  set (exp_min := Z.max (Z.of_N (ndigits c) + e - 28) (-999999 - 28 + 1)).
  destruct (Z.ltb_spec e exp_min) as [Hround|Hkeep].
  - set (j := Z.to_N (exp_min - e)).
    assert (Hcarry : (ndigits (round_half_even c j / 10) <= 28)%N).
    { apply round_carry_digits_le; lia. }
    set (c1 := round_half_even c j) in *.
    assert (Hres : forall c2 e2,
              Z.of_N (ndigits c2) <= 28 -> exp_min <= e2 ->
              (if 999999 - 28 + 1 <? e2 then Raise Overflow
               else Ok (Fin s c2 e2)) = Ok d -> settled d).
    { intros c2 e2 Hd2 He2.
      destruct (Z.ltb_spec (999999 - 28 + 1) e2) as [|Hle]; [discriminate|].
      intros [= <-]. cbn. unfold dec_fix.
      destruct (c2 =? 0)%N; [eauto|].
      unfold Etop, Etiny, Emax, Emin, prec.
      destruct (Z.ltb_spec (999999 - 28 + 1) (Z.of_N (ndigits c2) + e2 - 28));
        [lia|].
      destruct (Z.ltb_spec e2
                  (Z.max (Z.of_N (ndigits c2) + e2 - 28) (-999999 - 28 + 1)));
        [lia|eauto]. }
    destruct (Z.ltb_spec 28 (Z.of_N (ndigits c1))) as [Hbig|Hsmall].
    + apply Hres; lia.
    + apply Hres; lia.
  - intros [= <-]. cbn. unfold dec_fix.
    destruct (N.eqb_spec c 0); [contradiction|].
    unfold Etop, Etiny, Emax, Emin, prec. fold exp_min.
    destruct (Z.ltb_spec (999999 - 28 + 1) (Z.of_N (ndigits c) + e - 28));
      [lia|].
    destruct (Z.ltb_spec e exp_min); [lia|eauto].
Qed.

Lemma dec_add_finite (s1 : bool) (c1 : N) (e1 : Z) (s2 : bool) (c2 : N)
    (e2 : Z) (d : Decimal) :
  dec_add (Fin s1 c1 e1) (Fin s2 c2 e2) = Ok d ->
  exists s c e, d = Fin s c e.
Proof.
  unfold dec_add. simpl check_nans. cbv iota beta.
  destruct (_ && _); [|destruct (_ =? 0)];
    intros (c & e & ->)%dec_fix_finite; eauto.
Qed.

Lemma dec_div_finite (s1 : bool) (c1 : N) (e1 : Z) (s2 : bool) (c2 : N)
    (e2 : Z) (q : Decimal) :
  dec_div (Fin s1 c1 e1) (Fin s2 c2 e2) = Ok q ->
  (exists s c e, q = Fin s c e) /\ settled q.
Proof.
  unfold dec_div. simpl check_nans. cbv iota beta.
  destruct (c2 =? 0)%N; [destruct (c1 =? 0)%N; discriminate|].
  destruct (c1 =? 0)%N.
  { intros H. split; [|exact (dec_fix_settled _ _ _ _ H)].
    apply dec_fix_finite in H as (c & e & ->). eauto. }
  destruct (if 0 <=? _ then _ else _) as [coeff remainder].
  destruct (if (remainder =? 0)%N then _ else _) as [coeff' exp'].
  intros H. split; [|exact (dec_fix_settled _ _ _ _ H)].
  apply dec_fix_finite in H as (c & e & ->). eauto.
Qed.



(** A row built from two finite numbers can be reported. *)
Lemma Row_init_reportable (n : string) (vc vl : value) (row : Row)
    (s1 : bool) (c1 : N) (e1 : Z) (s2 : bool) (c2 : N) (e2 : Z) :
  safe_decimal vc = Some (Fin s1 c1 e1) ->
  safe_decimal vl = Some (Fin s2 c2 e2) ->
  Row_init n vc vl = Ok row ->
  numeric row /\ reportable row.
Proof.
  intros Hc Hl. unfold Row_init. rewrite Hc, Hl.
  unfold dec_sub. simpl check_nans. cbv iota beta. cbn [copy_negate].
  destruct (dec_add _ _) as [d|] eqn:Hsub; [cbn [Py.bind]|discriminate].
  apply dec_add_finite in Hsub as (sd & cd & ed & ->).
  rewrite ne_zero_finite. cbn [Py.bind].
  destruct (negb (c2 =? 0)%N).
  - destruct (dec_mul _ _) as [m|]; [cbn [Py.bind]|discriminate].
    destruct (dec_ge m (of_int 0)) as [[|]|]; [| |discriminate]; cbn [Py.bind].
    + destruct (dec_div _ _) as [q|] eqn:Hdiv; [|discriminate].
      apply dec_div_finite in Hdiv as [_ Hq].
      intros [= <-]. split; [exact I|]. split; [eauto|exact Hq].
    + intros [= <-]. split; [exact I|]. split; [eauto|exact I].
  - intros [= <-]. split; [exact I|]. split; [eauto|exact I].
Qed.

Lemma ratio_above_one_returns (row : Row) :
  reportable row -> exists b, ratio_above_one row = Ok b.
Proof.
  intros [_ Hr]. unfold ratio_above_one.
  destruct (ratio row) as [[s c e|s|s g p]|]; try contradiction.
  - destruct (dec_bool _); [|eauto].
    cbn [dec_abs copy_abs]. destruct Hr as [x Hx]. rewrite Hx.
    apply dec_fix_finite in Hx as (c' & e' & ->). cbn. eauto.
  - cbn. eauto.
  - eauto.
Qed.

(** The report returns when every row it finds can be reported. *)
Lemma write_text_report_from_returns (table : Table) (names : list string) :
  (forall n row, In n names -> get_row_by_name table n = Ok (Some row) ->
                 reportable row) ->
  forall file, snd (write_text_report_from names file table) = Ok tt.
Proof.
  induction names as [|n names IH]; intros Hrows file; [reflexivity|].
  cbn [write_text_report_from].
  assert (IH' : forall f, snd (write_text_report_from names f table) = Ok tt).
  { apply IH. intros m row Hm. apply Hrows. right; exact Hm. }
  destruct (get_row_by_name_total table n) as [[row|] Hn]; rewrite Hn;
    [|apply IH'].
  pose proof (Hrows n row (or_introl eq_refl) Hn) as Hrep.
  destruct (ratio_above_one_returns row Hrep) as [b Hb].
  destruct Hrep as [(s & c & e & Hd) _]. rewrite Hd.
  unfold ge_int, dec_ge. cbn [is_nan of_int orb]. rewrite Hb.
  destruct b; apply IH'.
Qed.

End Reportable.

(* ===================================================================== *)
(** ** The run on a statement of ordinary numbers *)
(* ===================================================================== *)

Lemma lookup_in_rows (self : Table) (n : string) (row : Row) :
  get_row_by_name self n = Ok (Some row) -> In row (rows self).
Proof.
  intros H. pose proof (get_row_by_name_cases self n) as Hc.
  destruct (row_name_index_dict self !! n) as [[i|]|]; try congruence.
  destruct (length (rows self) <=? i)%nat; [congruence|].
  destruct Hc as (row' & Hrow' & Hget).
  rewrite Hget in H. injection H as <-.
  apply list_elem_of_In, list_elem_of_lookup. eauto.
Qed.

Lemma ordinary_records_are_read (records : list (string * value * value)) :
  Forall ordinary_record records ->
  exists built,
    Forall2 (fun record row => row_of_record record = Ok row) records built /\
    Forall (fun row => numeric row /\ reportable row) built.
Proof.
  induction 1 as [|[[n c] l] records Hrec _ (built & Hb & Hf)].
  - exists []. split; constructor.
  - destruct Hrec as (dc & dl & Hc & Hl & Oc & Ol).
    destruct (Row_init_returns n c l dc dl Hc Hl Oc Ol) as [row Hrow].
    destruct dc as [s1 c1 e1| |]; try contradiction.
    destruct dl as [s2 c2 e2| |]; try contradiction.
    exists (row :: built). split.
    + constructor; [exact Hrow|exact Hb].
    + constructor; [|exact Hf].
      exact (Row_init_reportable n c l row _ _ _ _ _ _ Hc Hl Hrow).
Qed.

(** On numeric rows the attribute values handed to a formula are numbers. *)
Lemma comprehension_numeric (self : Table) (names : list string) :
  Forall numeric (rows self) ->
  forall (attr : Row -> option Decimal) (args : list (option Decimal)),
    (attr = current_year \/ attr = last_year) ->
    comprehension (row_attr self attr) names = Ok args ->
    Forall (fun a => exists s c e, a = Some (Fin s c e)) args.
Proof.
  intros Hnum attr args Hattr. revert args.
  induction names as [|n names IH]; intros args; cbn [comprehension].
  - intros [= <-]. constructor.
  - unfold row_attr at 1.
    destruct (get_row_by_name self n) as [[row|]|] eqn:Hn; cbn [Py.bind];
      try discriminate.
    destruct (comprehension (row_attr self attr) names) as [rest|];
      cbn [Py.bind]; [|discriminate].
    intros [= <-]. constructor; [|apply IH; reflexivity].
    apply lookup_in_rows in Hn.
    pose proof (proj1 (Forall_forall _ _) Hnum row
                  (proj2 (list_elem_of_In _ _) Hn)) as Hrow.
    unfold numeric in Hrow.
    destruct Hattr as [-> | ->];
      destruct (current_year row) as [[? ? ?| |]|];
      destruct (last_year row) as [[? ? ?| |]|]; try contradiction; eauto.
Qed.

(** The three formulas return numbers on numbers. *)
Lemma registry_formulas_finite (entry : string * (formula * list string))
    (args : list (option Decimal)) (d : Decimal) :
  In entry ADDITIONAL_ROWS ->
  Forall (fun a => exists s c e, a = Some (Fin s c e)) args ->
  entry.2.1 args = Ok d ->
  exists s c e, d = Fin s c e.
Proof.
  intros He Hargs.
  cbn [ADDITIONAL_ROWS In] in He.
  destruct He as [<-|[<-|[<-|[]]]]; cbn [fst snd].
  - destruct args as [|a [|b [|? ?]]]; try discriminate.
    inversion Hargs as [|? ? (s1 & c1 & e1 & ->) Hargs']; subst.
    inversion Hargs' as [|? ? (s2 & c2 & e2 & ->) _]; subst.
    cbn [truediv]. intros H. apply dec_div_finite in H. tauto.
  - destruct args as [|a [|b [|? ?]]]; try discriminate.
    inversion Hargs as [|? ? (s1 & c1 & e1 & ->) Hargs']; subst.
    inversion Hargs' as [|? ? (s2 & c2 & e2 & ->) _]; subst.
    cbn [truediv]. intros H. apply dec_div_finite in H. tauto.
  - destruct args as [|a [|b [|c [|? ?]]]]; try discriminate.
    inversion Hargs as [|? ? (s1 & c1 & e1 & ->) Hargs']; subst.
    inversion Hargs' as [|? ? (s2 & c2 & e2 & ->) Hargs'']; subst.
    inversion Hargs'' as [|? ? (s3 & c3 & e3 & ->) _]; subst.
    cbn [add].
    destruct (dec_add _ _) as [sum|] eqn:Hsum; [cbn [Py.bind]|discriminate].
    apply dec_add_finite in Hsum as (ss & cs & es & ->).
    cbn [truediv]. intros H. apply dec_div_finite in H. tauto.
Qed.

(** A derived row whose formula succeeded on numeric rows can be reported. *)
Lemma derived_row_reportable (self : Table)
    (entry : string * (formula * list string)) (row : Row) :
  In entry ADDITIONAL_ROWS ->
  Forall numeric (rows self) ->
  try_block self entry.1 entry.2.1 entry.2.2 = Ok row ->
  reportable row.
Proof.
  intros He Hnum. unfold try_block, get_values_from_lambda_tuple.
  destruct (comprehension (row_attr self current_year) entry.2.2)
    as [args_current|] eqn:Hc; cbn [Py.bind]; [|discriminate].
  destruct (comprehension (row_attr self last_year) entry.2.2)
    as [args_last|] eqn:Hl; cbn [Py.bind]; [|discriminate].
  destruct (entry.2.1 args_current) as [current|] eqn:Hfc; cbn [Py.bind];
    [|discriminate].
  destruct (entry.2.1 args_last) as [last|] eqn:Hfl; cbn [Py.bind];
    [|discriminate].
  destruct (registry_formulas_finite entry args_current current He
              (comprehension_numeric self _ Hnum _ _ (or_introl eq_refl) Hc) Hfc)
    as (s1 & c1 & e1 & ->).
  destruct (registry_formulas_finite entry args_last last He
              (comprehension_numeric self _ Hnum _ _ (or_intror eq_refl) Hl) Hfl)
    as (s2 & c2 & e2 & ->).
  intros Hrow.
  eapply (Row_init_reportable entry.1 (VDec _) (VDec _));
    [apply safe_decimal_of_Decimal|apply safe_decimal_of_Decimal|exact Hrow].
Qed.

(** A name of a base line that is bound below the number of rows read
    resolves to the same row after the loop as before it. *)
Lemma base_name_after_loop (self self' : Table) (n : string) (i : nat) :
  generate_additional_rows self = Ok self' ->
  row_name_index_dict self !! n = Some (Some i) ->
  Forall (fun entry => index_key entry.1 <> n) ADDITIONAL_ROWS ->
  (i < length (rows self))%nat ->
  get_row_by_name self' n = get_row_by_name self n.
Proof.
  intros Hgen Hd Hkeys Hi.
  pose proof (generate_from_keeps_other_names _ n Hkeys _ _ Hgen) as Hkey.
  destruct (generate_from_appends ADDITIONAL_ROWS self)
    as (t & new & Hgen' & Hrows & _).
  unfold generate_additional_rows in Hgen. rewrite Hgen in Hgen'.
  injection Hgen' as <-.
  destruct self' as [rows' dict']. cbn [rows row_name_index_dict] in *.
  subst rows'.
  apply (lookup_unchanged_by_appending self new dict' n i Hd); [|exact Hi].
  rewrite Hkey. exact Hd.
Qed.

(** X14.  The run completes, with both sinks written, on every statement of at
    least fourteen lines all of whose cells are numbers of ordinary size. *)
Theorem ordinary_statement_completes
    (records : list (string * value * value)) :
  (14 <= length records)%nat ->
  Forall ordinary_record records ->
  exists csv txt, analyse_file records = mkRun (Some csv) (Some txt) (Ok tt).
Proof.
  intros Hlen Hord.
  destruct (ordinary_records_are_read records Hord) as (built & Hb & Hf).
  pose proof (Forall2_length _ _ _ Hb) as Hlen'.
  set (t := mkTable built DEFAULT_COLUMN_ROW_INDEX).
  assert (Hread : read_rows records Table_init = Ok t).
  { apply read_rows_spec. exists built. split; [exact Hb|reflexivity]. }
  assert (Hnum : Forall numeric (rows t)).
  { eapply Forall_impl; [exact Hf|]. intros row [H _]. exact H. }
  destruct (generate_from_appends ADDITIONAL_ROWS t)
    as (t' & new & Hgen & _ & _).
  fold (generate_additional_rows t) in Hgen.
  assert (Hrep : forall n row,
            In n report_names -> get_row_by_name t' n = Ok (Some row) ->
            reportable row).
  { assert (Hbase : forall n i row,
              DEFAULT_COLUMN_ROW_INDEX !! n = Some (Some i) ->
              Forall (fun entry => index_key entry.1 <> n) ADDITIONAL_ROWS ->
              (i < 14)%nat ->
              get_row_by_name t' n = Ok (Some row) -> reportable row).
    { intros n i row Hd Hkeys Hi Hget.
      rewrite (base_name_after_loop t t' n i Hgen Hd Hkeys) in Hget
        by (cbn [rows t]; lia).
      apply lookup_in_rows in Hget.
      apply (proj1 (Forall_forall _ _) Hf row).
      apply list_elem_of_In. exact Hget. }
    destruct (ratio_names_after_loop t t'
                (hd ("", ((fun _ => Raise TypeError), [])) ADDITIONAL_ROWS)
                eq_refl eq_refl Hgen) as (Hdte & Hdsc & Hcur).
    intros n row Hn Hget. cbn [report_names In] in Hn.
    destruct Hn as [<-|[<-|[<-|[<-|[<-|[<-|[<-|[<-|[]]]]]]]]].
    - eapply (Hbase "revenue" 1%nat); [reflexivity| |lia|exact Hget].
      repeat constructor; vm_compute; discriminate.
    - eapply (Hbase "profit" 4%nat); [reflexivity| |lia|exact Hget].
      repeat constructor; vm_compute; discriminate.
    - eapply (Hbase "assets" 8%nat); [reflexivity| |lia|exact Hget].
      repeat constructor; vm_compute; discriminate.
    - eapply (Hbase "liabilities" 11%nat); [reflexivity| |lia|exact Hget].
      repeat constructor; vm_compute; discriminate.
    - eapply (Hbase "equity" 13%nat); [reflexivity| |lia|exact Hget].
      repeat constructor; vm_compute; discriminate.
    - rewrite Hcur in Hget.
      unfold entry_succeeds, derived_row_of in Hget.
      cbn [hd ADDITIONAL_ROWS] in Hget.
      match type of Hget with
      | context [try_block ?s ?n ?f ?a] =>
          destruct (try_block s n f a) as [r|] eqn:Htry; [|discriminate];
          injection Hget as <-;
          exact (derived_row_reportable t (n, (f, a)) r
                   (or_introl eq_refl) Hnum Htry)
      end.
    - congruence.
    - congruence. }
  unfold analyse_file. rewrite Hread. cbn [Py.bind]. rewrite Hgen.
  pose proof (write_text_report_from_returns t' report_names Hrep "") as Hst.
  unfold write_text_report.
  destruct (write_text_report_from report_names "" t') as [txt st].
  cbn [snd] in Hst. subst st. eauto.
Qed.

Lemma ordinary_statement_completes_witness :
  ((14 <= length sample_statement)%nat /\
   Forall ordinary_record sample_statement) /\
  exists csv txt,
    analyse_file sample_statement = mkRun (Some csv) (Some txt) (Ok tt).
Proof.
  assert (Hord : Forall ordinary_record sample_statement).
  { repeat constructor;
      (eexists _, _; split; [vm_compute; reflexivity|];
       split; [vm_compute; reflexivity|];
       split; (split; [vm_compute; discriminate|lia])). }
  split; [split; [cbn; lia|exact Hord]|].
  apply (ordinary_statement_completes sample_statement); [cbn; lia|exact Hord].
Defined.

(* ===================================================================== *)
(** ** The sinks *)
(* ===================================================================== *)

(** X13.  Whenever the statement can be read, the tabular sink is written in
    full, whatever happens to the narrative afterwards: after the header come
    the records of the input rows, in the order of the input, and then those
    of the three ratios, in the order of the registry. *)
Theorem tabular_sink_lists_input_then_ratios
    (records : list (string * value * value)) (table : Table) :
  table_of records = Ok table ->
  exists derived txt st,
    derived_rows records = Ok derived /\
    analyse_file records =
      mkRun (Some (csv_header :: map csv_record (rows table ++ derived)))
        (Some txt) st /\
    map name (rows table ++ derived) =
      map (fun record => record.1.1) records ++
      ["Current Ratio"; "Debt to Equity Ratio"; "Debt Service Coverage Ratio"].
Proof.
  intros Hread.
  destruct (generate_from_appends ADDITIONAL_ROWS table)
    as (table' & new & Hgen & Hrows & Hnames).
  fold (generate_additional_rows table) in Hgen.
  exists new.
  destruct (write_text_report "" table') as [txt st] eqn:Hw.
  exists txt, st. split; [|split].
  - unfold derived_rows. rewrite Hread. cbn [Py.bind]. rewrite Hgen.
    cbn [Py.bind]. rewrite Hrows, drop_app_length. reflexivity.
  - unfold analyse_file. unfold table_of in Hread. rewrite Hread.
    cbn [Py.bind]. rewrite Hgen, Hw, Hrows. reflexivity.
  - rewrite map_app, Hnames.
    rewrite (proj2 (rows_of_table_of records table Hread)). reflexivity.
Qed.

Lemma tabular_sink_lists_input_then_ratios_witness :
  table_of statement_with_bad_revenue = Ok bad_revenue_table /\
  exists derived txt st,
    derived_rows statement_with_bad_revenue = Ok derived /\
    analyse_file statement_with_bad_revenue =
      mkRun (Some (csv_header
                     :: map csv_record (rows bad_revenue_table ++ derived)))
        (Some txt) st /\
    map name (rows bad_revenue_table ++ derived) =
      map (fun record => record.1.1) statement_with_bad_revenue ++
      ["Current Ratio"; "Debt to Equity Ratio"; "Debt Service Coverage Ratio"].
Proof.
  assert (H : table_of statement_with_bad_revenue = Ok bad_revenue_table)
    by (vm_compute; reflexivity).
  split; [exact H|].
  exact (tabular_sink_lists_input_then_ratios statement_with_bad_revenue
           bad_revenue_table H).
Defined.

(* ===================================================================== *)
(** ** Adding rows and looking them up *)
(* ===================================================================== *)

(** X3.  [add_row] never changes what a name already resolves to; a name bound
    to the next free position resolves to no row before the row is added, and
    to that row afterwards. *)
Theorem adding_a_row_and_looking_it_up (self : Table) (row : Row)
    (n : string) :
  (forall r, get_row_by_name self n = Ok (Some r) ->
             get_row_by_name (add_row self row) n = Ok (Some r)) /\
  (row_name_index_dict self !! n = Some (Some (length (rows self))) ->
   get_row_by_name self n = Ok None /\
   get_row_by_name (add_row self row) n = Ok (Some row)).
Proof.
  pose proof (get_row_by_name_cases self n) as Hc.
  unfold add_row. split.
  - intros r Hr.
    destruct (row_name_index_dict self !! n) as [[i|]|] eqn:Hd; try congruence.
    destruct (Nat.leb_spec (length (rows self)) i); [congruence|].
    rewrite (lookup_unchanged_by_appending self [row] _ n i Hd Hd) by lia.
    exact Hr.
  - intros Hd. rewrite Hd in Hc. rewrite Nat.leb_refl in Hc.
    split; [exact Hc|].
    unfold get_row_by_name, dict_get. cbn [rows row_name_index_dict].
    rewrite Hd. cbn [mjoin option_join]. rewrite length_app. cbn [length].
    destruct (Nat.leb_spec (length (rows self) + 1) (length (rows self)));
      [lia|].
    unfold getitem. rewrite lookup_app_r by lia. rewrite Nat.sub_diag.
    reflexivity.
Qed.

Lemma adding_a_row_and_looking_it_up_witness :
  (get_row_by_name (mkTable [missing_row "a"; missing_row "b"]
                      DEFAULT_COLUMN_ROW_INDEX) "revenue"
     = Ok (Some (missing_row "b")) /\
   get_row_by_name
     (add_row (mkTable [missing_row "a"; missing_row "b"]
                 DEFAULT_COLUMN_ROW_INDEX) (missing_row "c")) "revenue"
     = Ok (Some (missing_row "b"))) /\
  (row_name_index_dict (mkTable [missing_row "a"] DEFAULT_COLUMN_ROW_INDEX)
     !! "revenue"
     = Some (Some (length (rows (mkTable [missing_row "a"]
                                   DEFAULT_COLUMN_ROW_INDEX)))) /\
   get_row_by_name (mkTable [missing_row "a"] DEFAULT_COLUMN_ROW_INDEX)
     "revenue" = Ok None /\
   get_row_by_name
     (add_row (mkTable [missing_row "a"] DEFAULT_COLUMN_ROW_INDEX)
        (missing_row "Revenue")) "revenue"
     = Ok (Some (missing_row "Revenue"))).
Proof.
  split.
  - split; [reflexivity|].
    apply (proj1 (adding_a_row_and_looking_it_up
                    (mkTable [missing_row "a"; missing_row "b"]
                       DEFAULT_COLUMN_ROW_INDEX)
                    (missing_row "c") "revenue")).
    reflexivity.
  - split; [reflexivity|].
    apply (proj2 (adding_a_row_and_looking_it_up
                    (mkTable [missing_row "a"] DEFAULT_COLUMN_ROW_INDEX)
                    (missing_row "Revenue") "revenue")).
    reflexivity.
Defined.

(* ===================================================================== *)
(** ** Invariants of a row *)
(* ===================================================================== *)

(** X2.  Every row the constructor builds keeps the name and what the two
    cells parse to; its difference is missing exactly when a cell did not
    parse; and it has a change ratio only if it has a difference and the prior
    period is a non-zero finite number. *)
Theorem row_fields_are_consistent (n : string) (vc vl : value) (row : Row) :
  Row_init n vc vl = Ok row ->
  name row = n /\
  current_year row = safe_decimal vc /\
  last_year row = safe_decimal vl /\
  (difference row = None <->
   safe_decimal vc = None \/ safe_decimal vl = None) /\
  (forall q, ratio row = Some q ->
     is_Some (difference row) /\
     exists s c e, safe_decimal vl = Some (Fin s c e) /\ c <> 0%N).
Proof.
  intros Hrow.
  destruct (Row_init_fields n vc vl row Hrow) as (Hn & Hc & Hl).
  split; [exact Hn|]. split; [exact Hc|]. split; [exact Hl|].
  revert Hrow. unfold Row_init.
  destruct (safe_decimal vc) as [c|], (safe_decimal vl) as [l|];
    try (intros [= <-]; cbn; split; [tauto|discriminate]).
  destruct (dec_sub c l) as [d|] eqn:Hsub; [cbn [Py.bind]|discriminate].
  destruct (dec_ne l (of_int 0)) as [[|]|] eqn:Hne; cbn [Py.bind];
    [| |discriminate].
  - destruct (dec_mul c l) as [m|] eqn:Hmul; [cbn [Py.bind]|discriminate].
    destruct (dec_ge m (of_int 0)) as [[|]|] eqn:Hge; cbn [Py.bind];
      [| |discriminate].
    + destruct (dec_div d l) as [q|] eqn:Hdiv; [|discriminate].
      intros [= <-]. cbn. split.
      * split; [discriminate|intros [?|?]; discriminate].
      * intros q' _. split; [eauto|].
        destruct l as [s2 c2 e2|s2|s2 g2 p2].
        -- exists s2, c2, e2. split; [reflexivity|].
           rewrite ne_zero_finite in Hne. injection Hne as Hne.
           intros ->. discriminate.
        -- exfalso. clear Hne.
           destruct c as [s1 c1 e1|s1|s1 g1 p1].
           ++ unfold dec_sub in Hsub. cbn in Hsub. injection Hsub as <-.
              cbn in Hdiv. discriminate.
           ++ unfold dec_sub in Hsub. cbn in Hsub.
              destruct (Bool.eqb s1 (negb s2)) eqn:Hs; [|discriminate].
              cbn in Hmul. injection Hmul as <-.
              cbn in Hge. destruct s1, s2; cbn in *; discriminate.
           ++ destruct g1; cbn in Hmul; [discriminate|].
              injection Hmul as <-. discriminate.
        -- exfalso. destruct g2.
           ++ destruct c as [? ? ?|?|? [|] ?]; cbn in Hsub; discriminate.
           ++ destruct c as [? ? ?|?|? [|] ?]; cbn in Hmul; try discriminate;
                injection Hmul as <-; discriminate.
    + intros [= <-]. cbn. split.
      * split; [discriminate|intros [?|?]; discriminate].
      * discriminate.
  - intros [= <-]. cbn. split.
    + split; [discriminate|intros [?|?]; discriminate].
    + discriminate.
Qed.

Lemma row_fields_are_consistent_witness :
  Row_init "Revenue" (VStr "300") (VStr "100")
    = Ok (mkRow "Revenue" (Some (Fin false 300 0)) (Some (Fin false 100 0))
            (Some (Fin false 200 0)) (Some (Fin false 2 0))) /\
  exists s c e,
    safe_decimal (VStr "100") = Some (Fin s c e) /\ c <> 0%N.
Proof.
  assert (H : Row_init "Revenue" (VStr "300") (VStr "100")
              = Ok (mkRow "Revenue" (Some (Fin false 300 0))
                      (Some (Fin false 100 0)) (Some (Fin false 200 0))
                      (Some (Fin false 2 0))))
    by (vm_compute; reflexivity).
  split; [exact H|].
  destruct (row_fields_are_consistent "Revenue" (VStr "300") (VStr "100") _ H)
    as (_ & _ & _ & _ & Hratio).
  exact (proj2 (Hratio (Fin false 2 0) eq_refl)).
Defined.

(* ===================================================================== *)
(** ** Parsing what was printed *)
(* ===================================================================== *)

(** X1.  [safe_decimal] gives back every decimal it is handed, unchanged in
    sign, digits and exponent: printing a decimal and reading the text is the
    identity, also on infinities and NaNs with their payload. *)
Theorem safe_decimal_keeps_decimals (d : Decimal) :
  safe_decimal (VDec d) = Some d /\
  Decimal_of_string (Decimal_str d) = Some d.
Proof. split; apply round_trip. Qed.

(* ===================================================================== *)
(** ** Formatting: the trailing zeros of any fraction *)
(* ===================================================================== *)

Section TrailingZeros.

Local Open Scope char_scope.
Local Open Scope list_scope.

Local Abbreviation digit_list l := (Forall (fun c => is_digit c = true) l).
Local Abbreviation dot_free l := (Forall (fun c => is_dot c = false) l).

Implicit Types (b : option ascii) (cons l : list ascii) (cs : captures).

Lemma is_digit_word (c : ascii) : is_digit c = true -> is_word c = true.
Proof. unfold is_word. intros ->. reflexivity. Qed.

Lemma digit_zero_or_nonzero (x : ascii) :
  is_digit x = true ->
  x = "0" \/ (is_zero_char x = false /\ is_1_to_9 x = true).
Proof.
  intros H%is_digit_cases. simpl in H.
  destruct H as [<-|H]; [left; reflexivity|].
  right. repeat (destruct H as [<-|H]; [split; reflexivity|]). destruct H.
Qed.

(** The look-ahead after a zero fails before a digit. *)
Lemma boundary_before_digit {R} b cons (x : ascii) l cs
    (k : pos -> option R) :
  is_digit x = true ->
  rmatch (Ahead (Alt WordBoundary (Class not_0_to_9)))
    (Pos b ("0" :: cons) (x :: l) cs) k = None.
Proof.
  intros Hx. cbn [rmatch rest consumed before caps prev_char next_char
                  is_word_at].
  rewrite (is_digit_word x Hx). unfold not_0_to_9. rewrite Hx.
  reflexivity.
Qed.

(** Zeros up to the end of the text are all taken. *)
Lemma greedy_zeros_to_end b cs (n : nat) : forall cons,
  exists cons',
    greedy_star is_zero_char b ("0" :: cons) cs
      (fun p => rmatch (Ahead (Alt WordBoundary (Class not_0_to_9))) p Some)
      (repeat "0" n)
    = Some (Pos b cons' [] cs).
Proof.
  induction n as [|n IH]; intros cons.
  - eexists. reflexivity.
  - destruct (IH ("0" :: cons)) as [cons' H]. exists cons'.
    cbn [repeat greedy_star]. change (is_zero_char "0") with true.
    cbv iota. rewrite H. reflexivity.
Qed.

(** Zeros followed by another digit are not a match, however many of them
    are given back. *)
Lemma greedy_zeros_then_digit {R} b cs (k : pos -> option R) (x : ascii) l
    (n : nat) : forall cons,
  is_digit x = true -> is_zero_char x = false ->
  greedy_star is_zero_char b ("0" :: cons) cs
    (fun p => rmatch (Ahead (Alt WordBoundary (Class not_0_to_9))) p k)
    (repeat "0" n ++ x :: l)
  = None.
Proof.
  induction n as [|n IH]; intros cons Hx Hz.
  - cbn [repeat app greedy_star]. rewrite Hz.
    apply boundary_before_digit. exact Hx.
  - cbn [repeat app greedy_star]. change (is_zero_char "0") with true.
    cbv iota. rewrite (IH ("0" :: cons) Hx Hz).
    apply (boundary_before_digit b cons "0"). reflexivity.
Qed.

(** A run of digits is all zeros, or has a first digit that is not. *)
Lemma digits_zeros_or_not l :
  digit_list l ->
  (strip_trailing_zeros l = [] /\ l = repeat "0" (length l)) \/
  (strip_trailing_zeros l <> [] /\
   exists n x r, l = repeat "0" n ++ x :: r /\
                 is_digit x = true /\ is_zero_char x = false).
Proof.
  induction 1 as [|x l Hx Hl IH].
  - left. split; reflexivity.
  - cbn [strip_trailing_zeros].
    destruct (digit_zero_or_nonzero x Hx) as [->|[Hz H19]].
    + destruct IH as [[Hs Hrep]|[Hs (n & y & r & Hl' & Hy & Hyz)]].
      * left. rewrite Hs. split; [reflexivity|].
        cbn [length repeat]. rewrite <- Hrep. reflexivity.
      * right. split.
        { destruct (strip_trailing_zeros l); [congruence|discriminate]. }
        exists (S n), y, r. rewrite Hl'. repeat split; assumption.
    + right. split.
      * destruct (strip_trailing_zeros l); [|discriminate].
        unfold is_zero_char in Hz. rewrite Hz. discriminate.
      * exists 0%nat, x, l. repeat split; assumption.
Qed.

(** The zeros and the look-ahead, on a run of digits that ends the text:
    a match exactly when the run is not empty and all zeros. *)
Lemma zeros_then_boundary_on_digits b cons l cs :
  digit_list l ->
  (l <> [] -> strip_trailing_zeros l = [] ->
   exists cons',
     rmatch zeros_then_boundary (Pos b cons l cs) Some
       = Some (Pos b cons' [] cs)) /\
  (l = [] \/ strip_trailing_zeros l <> [] ->
   rmatch zeros_then_boundary (Pos b cons l cs) Some = None).
Proof.
  intros Hl. split.
  - intros Hne Hs.
    destruct (digits_zeros_or_not l Hl) as [[_ Hrep]|[Hs' _]];
      [|congruence].
    destruct l as [|x l]; [congruence|].
    cbn [length repeat] in Hrep. injection Hrep as -> Hrep.
    destruct (greedy_zeros_to_end b cs (length l) cons) as [cons' H].
    exists cons'. rewrite Hrep at 1. exact H.
  - intros [->|Hs]; [reflexivity|].
    destruct (digits_zeros_or_not l Hl)
      as [[Hs' _]|[_ (n & x & r & -> & Hx & Hz)]]; [congruence|].
    destruct n as [|n].
    + unfold zeros_then_boundary.
      cbn [repeat app rmatch rest]. rewrite Hz. reflexivity.
    + apply (greedy_zeros_then_digit b cs Some x r n cons Hx Hz).
Qed.

Lemma close_fraction_at b cons l cs :
  close_fraction (Pos b cons l cs)
  = rmatch zeros_then_boundary (Pos b cons l ((2%nat, rev cons) :: cs)) Some.
Proof.
  unfold close_fraction. cbn [before consumed rest caps].
  rewrite Nat.sub_0_r, firstn_all. reflexivity.
Qed.

Lemma strip_trailing_zeros_cons (x : ascii) l :
  strip_trailing_zeros (x :: l) <> [] ->
  strip_trailing_zeros (x :: l) = x :: strip_trailing_zeros l.
Proof.
  cbn [strip_trailing_zeros].
  destruct (strip_trailing_zeros l); [|reflexivity].
  destruct (Ascii.eqb x "0"); [congruence|reflexivity].
Qed.

(** The lazy run of digits that ends the second group stops at the first
    place from which only zeros are left. *)
Lemma second_run_on_digits b cs l :
  digit_list l -> forall cons,
  (strip_trailing_zeros l = l ->
   lazy_star is_digit b cons cs close_fraction l = None) /\
  (strip_trailing_zeros l <> l ->
   exists cons',
     lazy_star is_digit b cons cs close_fraction l
       = Some (Pos b cons' []
                 ((2%nat, rev cons ++ strip_trailing_zeros l) :: cs))).
Proof.
  induction 1 as [|x l Hx Hl IH]; intros cons.
  - split; [reflexivity|]. intros H. exfalso. apply H. reflexivity.
  - assert (Hxl : digit_list (x :: l)) by (constructor; assumption).
    destruct (zeros_then_boundary_on_digits b cons (x :: l)
                ((2%nat, rev cons) :: cs) Hxl) as [Hsome Hnone].
    cbn [lazy_star]. rewrite close_fraction_at, Hx.
    destruct (decide (strip_trailing_zeros (x :: l) = [])) as [Hs|Hs].
    + destruct (Hsome ltac:(discriminate) Hs) as [cons' ->].
      split; [rewrite Hs; discriminate|].
      intros _. exists cons'. rewrite Hs, app_nil_r. reflexivity.
    + rewrite (Hnone (or_intror Hs)).
      rewrite (strip_trailing_zeros_cons x l Hs).
      destruct (IH (x :: cons)) as [IHnone IHsome].
      split.
      * intros Heq. apply IHnone. congruence.
      * intros Hne. destruct IHsome as [cons' ->]; [congruence|].
        exists cons'. cbn [rev]. rewrite <- app_assoc. reflexivity.
Qed.

(** The second group on a run of digits: it ends at the last digit that is
    not a zero, when zeros follow it. *)
Lemma first_run_on_digits b cs l :
  digit_list l -> forall cons,
  (strip_trailing_zeros l = [] \/ strip_trailing_zeros l = l ->
   lazy_star is_digit b cons cs last_nonzero_then l = None) /\
  (strip_trailing_zeros l <> [] -> strip_trailing_zeros l <> l ->
   exists cons',
     lazy_star is_digit b cons cs last_nonzero_then l
       = Some (Pos b cons' []
                 ((2%nat, rev cons ++ strip_trailing_zeros l) :: cs))).
Proof.
  induction 1 as [|x l Hx Hl IH]; intros cons.
  - split; [reflexivity|]. intros H. exfalso. apply H. reflexivity.
  - destruct (IH (x :: cons)) as [IHnone IHsome].
    destruct (second_run_on_digits b cs l Hl (x :: cons))
      as [Bnone Bsome].
    cbn [lazy_star]. rewrite Hx.
    unfold last_nonzero_then at 1 3.
    cbn [rmatch rest before consumed caps].
    destruct (digit_zero_or_nonzero x Hx) as [->|[Hz H19]].
    + change (is_1_to_9 "0") with false. cbv iota.
      cbn [strip_trailing_zeros].
      destruct (decide (strip_trailing_zeros l = [])) as [Hs|Hs].
      * rewrite Hs. change (Ascii.eqb "0" "0") with true. cbv iota.
        split; [|congruence].
        intros _. apply IHnone. left. exact Hs.
      * assert (Hk : match strip_trailing_zeros l with
                     | [] => if Ascii.eqb "0" "0" then [] else ["0"]
                     | a :: l0 => "0" :: a :: l0
                     end = "0" :: strip_trailing_zeros l).
        { destruct (strip_trailing_zeros l); [congruence|reflexivity]. }
        rewrite Hk. split.
        -- intros [H0|Heq]; [discriminate|].
           apply IHnone. right. congruence.
        -- intros _ Hne. destruct IHsome as [cons' ->];
             [exact Hs|congruence|].
           exists cons'. cbn [rev]. rewrite <- app_assoc. reflexivity.
    + rewrite H19.
      assert (Hs : strip_trailing_zeros (x :: l) <> []).
      { cbn [strip_trailing_zeros].
        destruct (strip_trailing_zeros l); [|discriminate].
        unfold is_zero_char in Hz. rewrite Hz. discriminate. }
      rewrite (strip_trailing_zeros_cons x l Hs).
      destruct (decide (strip_trailing_zeros l = l)) as [Heq|Hne].
      * rewrite (Bnone Heq). split.
        -- intros _. apply IHnone. right. exact Heq.
        -- intros _ H. congruence.
      * destruct (Bsome Hne) as [cons' ->]. split.
        -- intros [H0|H1]; [discriminate|congruence].
        -- intros _ _. exists cons'. cbn [rev]. rewrite <- app_assoc.
           reflexivity.
Qed.

(** One attempt of the whole pattern at a decimal point followed by digits
    up to the end of the text. *)
Lemma match_at_fraction b l :
  digit_list l ->
  match match_at tail_dot_rgx b ("." :: l) with
  | Some p =>
      l <> [] /\ strip_trailing_zeros l <> l /\ rest p = [] /\
      default [] (capture 2 (caps p)) = stripped_fraction l
  | None => "." :: l = stripped_fraction l
  end.
Proof.
  intros Hl.
  change (match_at tail_dot_rgx b ("." :: l))
    with (match rmatch zeros_then_boundary
                   (Pos b ["."] l [(1%nat, ["."])]) Some with
          | Some p => Some p
          | None => lazy_star is_digit b ["."] [] last_nonzero_then l
          end).
  destruct (zeros_then_boundary_on_digits b ["."] l [(1%nat, ["."])] Hl)
    as [Zsome Znone].
  destruct (first_run_on_digits b [] l Hl ["."]) as [Anone Asome].
  unfold stripped_fraction.
  destruct l as [|x l].
  - rewrite Znone by (left; reflexivity).
    rewrite Anone by (left; reflexivity). reflexivity.
  - destruct (decide (strip_trailing_zeros (x :: l) = [])) as [Hs|Hs].
    + destruct (Zsome ltac:(discriminate) Hs) as [cons' ->].
      rewrite Hs. repeat split; discriminate.
    + rewrite (Znone (or_intror Hs)).
      destruct (decide (strip_trailing_zeros (x :: l) = x :: l))
        as [Heq|Hne].
      * rewrite (Anone (or_intror Heq)), Heq. reflexivity.
      * destruct (Asome Hs Hne) as [cons' ->].
        repeat split; [discriminate|exact Hne|].
        cbn [caps capture Nat.eqb default rev app].
        destruct (strip_trailing_zeros (x :: l)); [congruence|reflexivity].
Qed.

Lemma sub_of_nothing (fuel : nat) b :
  sub_group_from fuel tail_dot_rgx 2 b [] = [].
Proof. destruct fuel; reflexivity. Qed.

Lemma sub_at_fraction (fuel : nat) b l :
  digit_list l -> (length l < fuel)%nat ->
  sub_group_from (S fuel) tail_dot_rgx 2 b ("." :: l) = stripped_fraction l.
Proof.
  intros Hl Hfuel.
  pose proof (match_at_fraction b l Hl) as H.
  cbn [sub_group_from].
  destruct (match_at tail_dot_rgx b ("." :: l)) as [p|].
  - destruct H as (_ & _ & -> & ->).
    rewrite sub_of_nothing, app_nil_r. reflexivity.
  - rewrite <- H. f_equal.
    destruct (sub_skips_dot_free l) with (fuel := fuel) (b := Some ".")
      (tail := @nil ascii) as [b' Hb'].
    + eapply Forall_impl; [exact Hl|]. intros c. apply is_digit_not_dot.
    + lia.
    + rewrite app_nil_r in Hb'. rewrite Hb', sub_of_nothing, app_nil_r.
      reflexivity.
Qed.

(** X15.  In a text that ends with a decimal point and digits, and has no
    other decimal point, [remove_tail_dot_zeros] drops the trailing zeros of
    the digits, and the decimal point with them when every digit was a zero; a
    point that no digit follows is kept. *)
Theorem trailing_zeros_are_stripped (ip digits : list ascii) :
  dot_free ip -> digit_list digits ->
  remove_tail_dot_zeros (text (ip ++ "." :: digits))
    = text (ip ++ stripped_fraction digits).
Proof.
  intros Hip Hd. unfold remove_tail_dot_zeros, chars, text.
  rewrite list_ascii_of_string_of_list_ascii. f_equal.
  unfold sub_group.
  destruct (sub_skips_dot_free ip Hip (S (length (ip ++ "." :: digits)))
              None ("." :: digits)) as [b' ->].
  { rewrite length_app. lia. }
  rewrite length_app. cbn [length].
  replace (S (length ip + S (length digits)) - length ip)%nat
    with (S (S (length digits))) by lia.
  rewrite sub_at_fraction by (assumption || lia). reflexivity.
Qed.

Lemma trailing_zeros_are_stripped_witness :
  remove_tail_dot_zeros "-12,030.10500" = "-12,030.105"%string.
Proof.
  apply (trailing_zeros_are_stripped
           ["-"; "1"; "2"; ","; "0"; "3"; "0"] ["1"; "0"; "5"; "0"; "0"]);
    repeat constructor.
Defined.

End TrailingZeros.
